(** * Cart API: handlers, consumer loop and checkout acknowledgment

    A shallow embedding of the cart service of the restaurant application:
    - [handlers]   cart-api/internal/handlers/cart_handler.go
    - [reciever]   cart-api/pkg/reciever/message_reciever.go
    - [main]       cart-api/cmd/api/main.go (consumer configuration, routes)
    - [order_api]  order-api/.../events/UserCheckoutEventHandler.java
    - [checkout_api]  checkout-api/src/routes/routes.ts
    - [frontend]   the frontend's fetch helpers (fetchItems, fetchWithRetry,
                   getOrderByTransactionID and their callers)

    The packages [models], [repositories] and [events] of cart-api are
    imported by these files but their sources are not part of the tree;
    what is needed of them is either taken as a parameter (type classes
    below) or modelled from the specification, and marked as such. *)

From Stdlib Require Import ZArith String Ascii List Lia.
From stdpp Require Import base option list gmap strings pretty.

Local Open Scope string_scope.
Local Open Scope list_scope.
Local Open Scope Z_scope.

(** ** Go errors *)

Module errors.

(** A Go [error] value.  [Sentinel] stands for a package-level error
    variable (compared by identity), [New] for an error made on the spot
    by a library ([encoding/json]), [NumError] for the [*strconv.NumError]
    of a failed conversion, [withMessage] for [errors.Wrap(cause, msg)] of
    github.com/pkg/errors, and [HTTPError] for the [*models.HTTPError]
    built by [models.NewHTTPError]. *)
Inductive error : Type :=
| Sentinel (name : string)
| New (text : string)
| NumError (Func Num : string) (Err : error)
| withMessage (cause : error) (msg : string)
| HTTPError (Code : Z) (Err : error).

#[global] Instance error_eq_dec : EqDecision error.
Proof. solve_decision. Defined.

Definition Wrap (err : error) (message : string) : error :=
  withMessage err message.

(** [errors.Is]: walks the [Unwrap] chain comparing each link with the
    target.  The wrappers of pkg/errors and [NumError] unwrap; whether
    [*models.HTTPError] does is not known, it is taken not to. *)
Fixpoint Is (err target : error) : bool :=
  if decide (err = target) then true
  else match err with
       | withMessage cause _ => Is cause target
       | NumError _ _ cause => Is cause target
       | _ => false
       end.

(** [errors.As(err, &httpErr)] with [httpErr : *models.HTTPError]: the
    first link of the chain that is an [HTTPError], with its code and the
    error it carries. *)
Fixpoint AsHTTPError (err : error) : option (Z * error) :=
  match err with
  | HTTPError code e => Some (code, e)
  | withMessage cause _ => AsHTTPError cause
  | NumError _ _ cause => AsHTTPError cause
  | _ => None
  end.

End errors.
Export errors.

(** A Go result pair [(value, err)]. *)
Inductive result (A : Type) : Type :=
| Ok (a : A)
| Err (err : error).
Arguments Ok {A} a.
Arguments Err {A} err.

(** ** strconv.Atoi, with ParseInt and ParseUint, on a 64-bit platform *)

Module strconv.

Definition is_digit (c : ascii) : bool :=
  (48 <=? Z.of_N (N_of_ascii c)) && (Z.of_N (N_of_ascii c) <=? 57).

Definition digit_value (c : ascii) : Z := Z.of_N (N_of_ascii c) - 48.

(** the digit loop of the fast path of [Atoi]: [n = n*10 + int(ch - '0')],
    a non-digit is a syntax error *)
Fixpoint parse_digits (s : string) (n : Z) : option Z :=
  match s with
  | EmptyString => Some n
  | String ch rest =>
      if is_digit ch then parse_digits rest (n * 10 + digit_value ch)
      else None
  end.

Definition ErrSyntax : error := Sentinel "strconv.ErrSyntax".
Definition ErrRange : error := Sentinel "strconv.ErrRange".

Definition minInt : Z := - 2 ^ 63.
Definition maxInt : Z := 2 ^ 63 - 1.

Definition syntaxError (fn str : string) : error := NumError fn str ErrSyntax.
Definition rangeError (fn str : string) : error := NumError fn str ErrRange.

Definition maxUint64 : Z := 2 ^ 64 - 1.

(** The loop of [ParseUint(s0, 10, 64)] over the bytes still to read, from
    the value [n] read so far: the result pair of [ParseUint].  A byte
    that is not a digit is a syntax error; a digit that makes the value
    overflow a [uint64] is a range error, returned at once, before any
    later byte is looked at. *)
Fixpoint ParseUint_loop (s0 s : string) (n : Z) : Z * option error :=
  match s with
  | EmptyString => (n, None)
  | String c rest =>
      if is_digit c then
        if maxUint64 / 10 + 1 <=? n
        then (maxUint64, Some (rangeError "ParseUint" s0))
        else
          let n10 := (n * 10) mod 2 ^ 64 in
          let n1 := (n10 + digit_value c) mod 2 ^ 64 in
          if (n1 <? n10) || (maxUint64 <? n1)
          then (maxUint64, Some (rangeError "ParseUint" s0))
          else ParseUint_loop s0 rest n1
      else (0, Some (syntaxError "ParseUint" s0))
  end.

(** [ParseUint(s, 10, 0)] *)
Definition ParseUint (s : string) : Z * option error :=
  match s with
  | EmptyString => (0, Some (syntaxError "ParseUint" s))
  | _ => ParseUint_loop s s 0
  end.

(** The second half of [ParseInt(s0, 10, 0)], "convert unsigned and check
    range", on the string [s] left after the sign: a syntax error of
    [ParseUint] is returned under the name of [ParseInt] and with the whole
    string; a range error goes on to the cutoff tests with the value
    [maxUint64] that [ParseUint] returned. *)
Definition ParseInt_unsigned (s0 : string) (neg : bool) (s : string) : result Z :=
  let '(un, err) := ParseUint s in
  let checked :=
    if negb neg && (2 ^ 63 <=? un) then Err (rangeError "ParseInt" s0)
    else if neg && (2 ^ 63 <? un) then Err (rangeError "ParseInt" s0)
    else Ok (if neg then - un else un) in
  match err with
  | Some (NumError _ _ e) =>
      if decide (e = ErrRange) then checked else Err (NumError "ParseInt" s0 e)
  | Some err => Err err
  | None => checked
  end.

(** [ParseInt(s, 10, 0)]: the leading sign is picked off. *)
Definition ParseInt (s : string) : result Z :=
  match s with
  | EmptyString => Err (syntaxError "ParseInt" s)
  | String c tail =>
      if decide (c = "+"%char) then ParseInt_unsigned s false tail
      else if decide (c = "-"%char) then ParseInt_unsigned s true tail
      else ParseInt_unsigned s false s
  end.

(** [Atoi] on a 64-bit platform.  A string of 1 to 18 bytes takes the fast
    path: an optional sign, then digits only, with no overflow possible.
    Any other string goes through [ParseInt(s, 10, 0)], whose error is
    returned under the name of [Atoi]. *)
Definition Atoi (s : string) : result Z :=
  let sLen := String.length s in
  if ((0 <? sLen) && (sLen <? 19))%nat then
    match s with
    | EmptyString => Err (syntaxError "Atoi" s)
    | String s0 tail =>
        let signed := (if decide (s0 = "-"%char) then true else false)
                      || (if decide (s0 = "+"%char) then true else false) in
        match (if signed then tail else s) with
        | EmptyString => Err (syntaxError "Atoi" s)
        | digits =>
            match parse_digits digits 0 with
            | None => Err (syntaxError "Atoi" s)
            | Some n => Ok (if decide (s0 = "-"%char) then - n else n)
            end
        end
    end
  else
    match ParseInt s with
    | Ok i64 => Ok i64
    | Err (NumError _ num e) => Err (NumError "Atoi" num e)
    | Err err => Err err
    end.

(** The syntax of a decimal integer, stated without [Atoi]:
    [[+-]?[0-9]+]. *)
Fixpoint all_digits (s : string) : bool :=
  match s with
  | EmptyString => true
  | String ch rest => is_digit ch && all_digits rest
  end.

Definition is_decimal_integer (s : string) : bool :=
  match s with
  | EmptyString => false
  | String s0 tail =>
      if (if decide (s0 = "-"%char) then true else false)
         || (if decide (s0 = "+"%char) then true else false)
      then match tail with
           | EmptyString => false
           | _ => all_digits tail
           end
      else all_digits s
  end.

End strconv.

(** ** The models package *)

Module models.

(** Modelled from the spec: the struct [models.LineItem] is not in the
    tree.  A line item has an [item_id], a [quantity] and item-specific
    attributes (name, price) that are opaque to the cart logic. *)
Record LineItem : Type := {
  ItemID : Z;
  Quantity : Z;
  Attributes : string;
}.

(** Modelled from the spec: the struct [models.Cart] is not in the tree.
    A cart has its identifier ([cart.ID.String()] in the handlers), a
    collection of line items, and owner/session metadata. *)
Record Cart : Type := {
  ID : string;
  LineItems : list LineItem;
  Meta : string;
}.

#[global] Instance LineItem_eq_dec : EqDecision LineItem.
Proof. solve_decision. Defined.

#[global] Instance Cart_eq_dec : EqDecision Cart.
Proof. solve_decision. Defined.

Definition NewHTTPError (code : Z) (err : error) : error :=
  HTTPError code err.

(** The request types of the create and replace calls and their mapping
    to a cart ([models.MapCreateCartReqToCart],
    [models.MapUpdateCartReqToCart]) are declared in the missing package:
    they are parameters of the handlers. *)
Class Requests : Type := {
  CreateCartReq : Type;
  UpdateCartReq : Type;
  MapCreateCartReqToCart : CreateCartReq -> Cart;
  MapUpdateCartReqToCart : Cart -> UpdateCartReq -> Cart;
}.

End models.
Export models.

(** ** encoding/json, as far as the handlers use it *)

Module json.

(** [json.NewDecoder(r.Body).Decode(&v)] for the three request payloads
    and [json.NewEncoder(w).Encode(cart)], as functions of the bytes. *)
Class Codec `{Requests} : Type := {
  DecodeCreateCartReq : string -> result CreateCartReq;
  DecodeUpdateCartReq : string -> result UpdateCartReq;
  DecodeLineItem : string -> result LineItem;
  Marshal : Cart -> result string;
}.

End json.
Export json.


(** [err.Error()]: the text of an error.  The method of [*models.HTTPError]
    is in the missing package, so the text is a parameter. *)
Class ErrorText : Type := { Error : error -> string }.

(** ** net/http, as far as the handlers use it *)

Module http.

Definition StatusOK : Z := 200.
Definition StatusBadRequest : Z := 400.
Definition StatusNotFound : Z := 404.
Definition StatusInternalServerError : Z := 500.

(** The calls a handler makes on its [http.ResponseWriter], in order. *)
Inductive Call : Type :=
| CallHeaderSet (key value : string)
| CallWriteHeader (code : Z)
| CallWrite (data : string).

#[global] Instance Call_eq_dec : EqDecision Call.
Proof. solve_decision. Defined.

(** The state of a response: the header map, the status line once it has
    been sent ([None] before), the body bytes written so far, and the log of
    the calls made. *)
Record ResponseWriter : Type := {
  header : gmap string string;
  status : option Z;
  body : list string;
  calls : list Call;
}.

Definition NewResponseWriter : ResponseWriter :=
  {| header := ∅; status := None; body := []; calls := [] |}.

(** [w.Header().Set(key, value)] *)
Definition HeaderSet (key value : string) (w : ResponseWriter) : ResponseWriter :=
  {| header := <[key := value]> (header w);
     status := status w;
     body := body w;
     calls := calls w ++ [CallHeaderSet key value] |}.

(** [w.WriteHeader(code)]: a second call is superfluous and ignored; a first
    call with a code outside 100..999 panics ([None]). *)
Definition WriteHeader (code : Z) (w : ResponseWriter) : option ResponseWriter :=
  match status w with
  | Some _ =>
      Some {| header := header w; status := status w; body := body w;
              calls := calls w ++ [CallWriteHeader code] |}
  | None =>
      if (code <? 100) || (999 <? code) then None
      else Some {| header := header w; status := Some code; body := body w;
                   calls := calls w ++ [CallWriteHeader code] |}
  end.

(** [w.Write(data)]: sends the header with status 200 first when no header
    was written yet. *)
Definition Write (data : string) (w : ResponseWriter) : ResponseWriter :=
  {| header := header w;
     status := match status w with Some c => Some c | None => Some StatusOK end;
     body := body w ++ [data];
     calls := calls w ++ [CallWrite data] |}.

(** [http.Error(w, error, code)] *)
Definition Error_ (w : ResponseWriter) (error : string) (code : Z)
  : option ResponseWriter :=
  let w1 := HeaderSet "Content-Type" "text/plain; charset=utf-8" w in
  let w2 := HeaderSet "X-Content-Type-Options" "nosniff" w1 in
  w3 ← WriteHeader code w2;
  Some (Write (error +:+ "
") w3).

(** An incoming request: the URL path, the wildcard segments matched by the
    route pattern, and the body. *)
Record Request : Type := {
  URLPath : string;
  PathValues : gmap string string;
  Body : string;
}.

(** [r.PathValue(name)]: the empty string when the pattern has no such
    wildcard. *)
Definition PathValue (name : string) (r : Request) : string :=
  default "" (PathValues r !! name).

End http.
Export http.

(** ** The cart handlers (cart_handler.go) *)

Module repository.

(** The interface [GetCreateDeleter] the handler holds in its [repository]
    field.  An implementation acts on a store state [R]; every method
    returns its Go result together with the state it leaves. *)
Class GetCreateDeleter (R : Type) : Type := {
  Get : string -> R -> result Cart * R;
  Update : Cart -> R -> option error * R;
  Delete : string -> R -> option error * R;
  AddItem : string -> LineItem -> R -> option error * R;
  UpdateItem : string -> Z -> LineItem -> R -> option error * R;
  DeleteItem : string -> Z -> R -> option error * R;
}.


(** The calls made on a repository, for an implementation that keeps a
    log of them. *)
Inductive RepoCall : Type :=
| CallGet (cartID : string)
| CallUpdate (cart : Cart)
| CallDelete (id : string)
| CallAddItem (cartID : string) (item : LineItem)
| CallUpdateItem (cartID : string) (itemID : Z) (item : LineItem)
| CallDeleteItem (cartID : string) (itemID : Z).

Definition logged {R A : Type} (call : RepoCall) (m : R -> A * R)
  : R * list RepoCall -> A * (R * list RepoCall) :=
  fun '(s, log) => let '(a, s1) := m s in (a, (s1, log ++ [call])).

(** A repository wrapped so that every method call is appended to a log. *)
Definition traced {R : Type} (repo : GetCreateDeleter R)
  : GetCreateDeleter (R * list RepoCall) :=
  {| Get := fun cartID => logged (CallGet cartID) (Get cartID);
     Update := fun cart => logged (CallUpdate cart) (Update cart);
     Delete := fun id => logged (CallDelete id) (Delete id);
     AddItem := fun cartID item =>
       logged (CallAddItem cartID item) (AddItem cartID item);
     UpdateItem := fun cartID itemID item =>
       logged (CallUpdateItem cartID itemID item) (UpdateItem cartID itemID item);
     DeleteItem := fun cartID itemID =>
       logged (CallDeleteItem cartID itemID) (DeleteItem cartID itemID) |}.

End repository.

(** ** The cart store *)

Module repositories.

(** Modelled from the spec: the error variable [ErrCartNotFound] that the
    handlers test a [Get] failure against is declared in the missing
    package; it is the store's [NotFound]. *)
Definition ErrCartNotFound : error := Sentinel "repositories.ErrCartNotFound".

(** Modelled from the spec: the merge rule of [add_item] (the repository
    source is not in the tree).  When an entry with the same [item_id]
    exists its quantity becomes [existing_quantity + requested_quantity];
    otherwise the requested item is appended as it is. *)
Fixpoint add_line_item (items : list LineItem) (item : LineItem) : list LineItem :=
  match items with
  | [] => [item]
  | x :: rest =>
      if decide (ItemID x = ItemID item)
      then {| ItemID := ItemID x;
              Quantity := Quantity x + Quantity item;
              Attributes := Attributes x |} :: rest
      else x :: add_line_item rest item
  end.

(** Modelled from the spec: [update_item] replaces the fields of the entry
    with the given [item_id] in place, a full replacement and not a merge;
    [None] when the cart has no such entry. *)
Fixpoint update_line_item (items : list LineItem) (itemID : Z) (item : LineItem)
  : option (list LineItem) :=
  match items with
  | [] => None
  | x :: rest =>
      if decide (ItemID x = itemID)
      then Some ({| ItemID := itemID;
                    Quantity := Quantity item;
                    Attributes := Attributes item |} :: rest)
      else cons x <$> update_line_item rest itemID item
  end.

(** Modelled from the spec: [delete_item] removes the entry; removing an
    entry that is not there changes nothing. *)
Definition delete_line_item (items : list LineItem) (itemID : Z) : list LineItem :=
  filter (fun x => ItemID x ≠ itemID) items.

Definition with_items (cart : Cart) (items : list LineItem) : Cart :=
  {| ID := ID cart; LineItems := items; Meta := Meta cart |}.

(** The quantity a cart holds of an item: that of the entry with this
    [item_id], if there is one. *)
Fixpoint quantity_of (itemID : Z) (items : list LineItem) : option Z :=
  match items with
  | [] => None
  | x :: rest =>
      if decide (ItemID x = itemID) then Some (Quantity x)
      else quantity_of itemID rest
  end.

Section CartRepository.
Implicit Types s : gmap string Cart.

(** Modelled from the spec: the cart store (package [repositories] is not
    in the tree), one entry per [cart_id].  [get] returns the snapshot or
    [NotFound]; [update] is a full replace or create, an upsert by the
    cart's own id; [delete] succeeds also on an absent cart.  The item
    operations are a read-modify-write of the same key: they fetch the
    cart, apply the rule above and write the cart back. *)
Definition Get (cartID : string) s : result Cart * gmap string Cart :=
  match s !! cartID with
  | Some cart => (Ok cart, s)
  | None => (Err ErrCartNotFound, s)
  end.

(** Modelled from the spec: [update(Cart)], a full replace or create, an
    upsert by the cart's id (the repository source is missing). *)
Definition Update (cart : Cart) s : option error * gmap string Cart :=
  (None, <[ID cart := cart]> s).

(** Modelled from the spec: [delete(cart_id)]; deleting an absent cart is
    not an error (the repository source is missing). *)
Definition Delete (id : string) s : option error * gmap string Cart :=
  (None, delete id s).

(** Modelled from the spec: [add_item(cart_id, LineItem)], a
    read-modify-write of the cart with the merge rule [add_line_item] (the
    repository source is missing).  The spec does not say what happens on
    an absent cart; the failure of the read is returned. *)
Definition AddItem (cartID : string) (item : LineItem) s
  : option error * gmap string Cart :=
  match Get cartID s with
  | (Err err, s1) => (Some err, s1)
  | (Ok cart, s1) => Update (with_items cart (add_line_item (LineItems cart) item)) s1
  end.

(** Modelled from the spec: [update_item(cart_id, item_id, LineItem)]
    fails with [NotFound] if the cart or the item does not exist (the
    repository source is missing). *)
Definition UpdateItem (cartID : string) (itemID : Z) (item : LineItem) s
  : option error * gmap string Cart :=
  match Get cartID s with
  | (Err err, s1) => (Some err, s1)
  | (Ok cart, s1) =>
      match update_line_item (LineItems cart) itemID item with
      | None => (Some ErrCartNotFound, s1)
      | Some items => Update (with_items cart items) s1
      end
  end.

(** Modelled from the spec: [delete_item(cart_id, item_id)] removes the
    item and is idempotent (the repository source is missing).  The spec
    does not say what happens on an absent cart; the failure of the read is
    returned. *)
Definition DeleteItem (cartID : string) (itemID : Z) s
  : option error * gmap string Cart :=
  match Get cartID s with
  | (Err err, s1) => (Some err, s1)
  | (Ok cart, s1) => Update (with_items cart (delete_line_item (LineItems cart) itemID)) s1
  end.

End CartRepository.

#[global] Instance CartRepository : repository.GetCreateDeleter (gmap string Cart) := {
  repository.Get := Get;
  repository.Update := Update;
  repository.Delete := Delete;
  repository.AddItem := AddItem;
  repository.UpdateItem := UpdateItem;
  repository.DeleteItem := DeleteItem;
}.

(** Every cart is filed under its own id. *)
Definition store_wf (s : gmap string Cart) : Prop :=
  map_Forall (fun k cart => ID cart = k) s.

End repositories.

Module handlers.

(** What a handler method leaves: the error it returns ([None] is [nil]),
    the response writer and the store. *)
Definition Handled (R : Type) : Type := (option error * ResponseWriter * R)%type.

(** [func(w http.ResponseWriter, r *http.Request) error] *)
Definition HandlerFuncE (R : Type) : Type :=
  ResponseWriter -> Request -> R -> Handled R.

(** [json.NewEncoder(w).Encode(v)]: nothing is written when marshalling
    fails. *)
Definition Encode `{Codec} (v : Cart) (w : ResponseWriter)
  : option error * ResponseWriter :=
  match Marshal v with
  | Err err => (Some err, w)
  | Ok data => (None, Write (data +:+ "
") w)
  end.

Section ErrorHandler.
Context `{ErrorText} {R : Type}.

(** The wrapper every route is registered with.  [None] for the writer
    means the call panicked inside [http.Error]. *)
Definition ErrorHandler (f : HandlerFuncE R) (w : ResponseWriter) (r : Request)
    (s : R) : option ResponseWriter * R :=
  let '(err, w1, s1) := f w r s in
  let w2 :=
    match err with
    | Some err =>
        match AsHTTPError err with
        | Some (code, e) => http.Error_ w1 (Error (HTTPError code e)) code
        | None => Some w1
        end
    | None => Some w1
    end in
  (w2 ≫= WriteHeader StatusOK, s1).

End ErrorHandler.

(** The methods of [CartHandler].  The log line that [Create] writes
    first has no part in what follows and is left out. *)
Module CartHandler.
Section CartHandler.
Context `{Codec} {R : Type} {h_repository : repository.GetCreateDeleter R}.

Definition Create : HandlerFuncE R := fun w r s =>
  match DecodeCreateCartReq (Body r) with
  | Err err => (Some (NewHTTPError StatusBadRequest err), w, s)
  | Ok req =>
      let cart := MapCreateCartReqToCart req in
      match repository.Update cart s with
      | (Some err, s1) => (Some (NewHTTPError StatusBadRequest err), w, s1)
      | (None, s1) =>
          match repository.Get (ID cart) s1 with
          | (Err err, s2) => (Some (NewHTTPError StatusBadRequest err), w, s2)
          | (Ok result, s2) =>
              let w1 := HeaderSet "Content-Type" "application/json" w in
              match Encode result w1 with
              | (Some err, w2) =>
                  (Some (NewHTTPError StatusInternalServerError err), w2, s2)
              | (None, w2) => (None, w2, s2)
              end
          end
      end
  end.

Definition Update : HandlerFuncE R := fun w r s =>
  let cartID := PathValue "id" r in
  match DecodeUpdateCartReq (Body r) with
  | Err err => (Some (NewHTTPError StatusBadRequest err), w, s)
  | Ok updateReq =>
      match repository.Get cartID s with
      | (Err err, s1) =>
          if Is err repositories.ErrCartNotFound
          then (Some (NewHTTPError StatusNotFound
                        (Wrap err ("cartID: " +:+ cartID))), w, s1)
          else (Some (NewHTTPError StatusInternalServerError err), w, s1)
      | (Ok cart, s1) =>
          let cartForUpdate := MapUpdateCartReqToCart cart updateReq in
          match repository.Update cartForUpdate s1 with
          | (Some err, s2) =>
              (Some (NewHTTPError StatusInternalServerError err), w, s2)
          | (None, s2) => (None, w, s2)
          end
      end
  end.

Definition Get : HandlerFuncE R := fun w r s =>
  let id := PathValue "id" r in
  match repository.Get id s with
  | (Err err, s1) =>
      if Is err repositories.ErrCartNotFound
      then (Some (NewHTTPError StatusNotFound
                    (Wrap err ("cartID: " +:+ id))), w, s1)
      else (Some (NewHTTPError StatusInternalServerError err), w, s1)
  | (Ok result, s1) =>
      let w1 := HeaderSet "Content-Type" "application/json" w in
      match Encode result w1 with
      | (Some err, w2) =>
          (Some (NewHTTPError StatusInternalServerError err), w2, s1)
      | (None, w2) => (None, w2, s1)
      end
  end.

Definition Delete : HandlerFuncE R := fun w r s =>
  let id := PathValue "id" r in
  match repository.Delete id s with
  | (Some err, s1) => (Some (NewHTTPError StatusBadRequest err), w, s1)
  | (None, s1) => (None, w, s1)
  end.

Definition AddItem : HandlerFuncE R := fun w r s =>
  let cartID := PathValue "id" r in
  match DecodeLineItem (Body r) with
  | Err err => (Some (NewHTTPError StatusBadRequest err), w, s)
  | Ok entity =>
      match repository.AddItem cartID entity s with
      | (Some err, s1) =>
          (Some (NewHTTPError StatusInternalServerError err), w, s1)
      | (None, s1) => (None, w, s1)
      end
  end.

Definition UpdateItem : HandlerFuncE R := fun w r s =>
  let cartID := PathValue "id" r in
  let itemID := PathValue "itemID" r in
  match strconv.Atoi itemID with
  | Err err => (Some (NewHTTPError StatusBadRequest err), w, s)
  | Ok itemIDInt =>
      match DecodeLineItem (Body r) with
      | Err err => (Some (NewHTTPError StatusBadRequest err), w, s)
      | Ok entity =>
          match repository.UpdateItem cartID itemIDInt entity s with
          | (Some err, s1) =>
              (Some (NewHTTPError StatusInternalServerError err), w, s1)
          | (None, s1) => (None, w, s1)
          end
      end
  end.

Definition DeleteItem : HandlerFuncE R := fun w r s =>
  let cartID := PathValue "id" r in
  let itemID := PathValue "itemID" r in
  match strconv.Atoi itemID with
  | Err err => (Some (NewHTTPError StatusBadRequest err), w, s)
  | Ok itemIDInt =>
      match repository.DeleteItem cartID itemIDInt s with
      | (Some err, s1) =>
          (Some (NewHTTPError StatusInternalServerError err), w, s1)
      | (None, s1) => (None, w, s1)
      end
  end.

End CartHandler.
End CartHandler.

End handlers.

(** ** The consumer (message_reciever.go) *)

Module context.

(** A [context.Context]: the background context, whose [Done] channel is
    never ready, or a context that some caller can cancel. *)
Inductive Context : Type :=
| Background
| WithCancel (id : nat).

#[global] Instance Context_eq_dec : EqDecision Context.
Proof. solve_decision. Defined.

Definition cancellable (ctx : Context) : bool :=
  match ctx with
  | Background => false
  | WithCancel _ => true
  end.

End context.

Module sarama.

Record ConsumerMessage : Type := {
  Topic : string;
  Partition : Z;
  Offset : Z;
  Timestamp : Z;
  Value : string;
}.

#[global] Instance ConsumerMessage_eq_dec : EqDecision ConsumerMessage.
Proof. solve_decision. Defined.

(** The two fields of [sarama.Config] that [main] sets; the interval is a
    [time.Duration] in nanoseconds. *)
Record Config : Type := {
  Consumer_Offsets_AutoCommit_Enable : bool;
  Consumer_Offsets_AutoCommit_Interval : Z;
}.

End sarama.

Module reciever.
Import context.

Record Message : Type := {
  Value : string;
  Attributes : list (string * string);
}.

#[global] Instance Message_eq_dec : EqDecision Message.
Proof. solve_decision. Defined.

(** The interface [MessageHandler]; an implementation acts on a state
    [H]. *)
Class MessageHandler (H : Type) : Type := {
  Handle : Context -> Message -> H -> option error * H;
}.

(** What [ConsumeClaim] does besides running the handler, in order: log
    lines, the call of the handler, and [session.MarkMessage]. *)
Inductive Effect : Type :=
| LogInfo (msg : string)
| LogDebug (topic : string) (timestamp : Z) (value : string) (msg : string)
| LogError (err : error) (topic : string) (msg : string)
| CallHandle (ctx : Context) (message : Message)
| MarkMessage (message : sarama.ConsumerMessage) (metadata : string).

#[global] Instance Effect_eq_dec : EqDecision Effect.
Proof. solve_decision. Defined.

(** What the [select] of one loop iteration receives: a message from
    [claim.Messages()], the closing of that channel, or
    [session.Context().Done()]. *)
Inductive SelectEvent : Type :=
| Recv (message : sarama.ConsumerMessage)
| ChanClosed
| CtxDone.

(** How far a loop got on the events it was given: it returned, or it is
    still waiting (in [select], or inside [Consume]). *)
Inductive Outcome : Type :=
| Returned (err : option error)
| Waiting.

(** [Setup] and [Cleanup] of the group handler do nothing and return
    [nil]. *)
Definition Setup : option error := None.
Definition Cleanup : option error := None.

Section consumerGroupHandler.
Context {H : Type} {c_handler : MessageHandler H}.

(** The [case message, ok := <-claim.Messages()] branch with [ok] true. *)
Definition on_message (message : sarama.ConsumerMessage) (h : H)
  : H * list Effect :=
  let m := {| Value := sarama.Value message; Attributes := [] |} in
  let '(err, h1) := Handle Background m h in
  (h1,
   [LogDebug (sarama.Topic message) (sarama.Timestamp message)
      (sarama.Value message) "message claimed";
    CallHandle Background m]
   ++ match err with
      | Some err =>
          [LogError err (sarama.Topic message) "failed to consume message"]
      | None => []
      end
   ++ [MarkMessage message ""]).

(** [ConsumeClaim] on the events its [select] receives, from the handler
    state [h]: the outcome, the handler state left and the effects. *)
Fixpoint ConsumeClaim (events : list SelectEvent) (h : H)
  : Outcome * H * list Effect :=
  match events with
  | [] => (Waiting, h, [])
  | Recv message :: rest =>
      let '(h1, effs) := on_message message h in
      let '(out, h2, effs') := ConsumeClaim rest h1 in
      (out, h2, effs ++ effs')
  | ChanClosed :: _ => (Returned None, h, [LogInfo "message channel was closed"])
  | CtxDone :: _ => (Returned None, h, [])
  end.

End consumerGroupHandler.

(** *** Observations on the effects of a claim *)

(** The messages of the channel that reach the loop: those before the
    channel closes or the session context is done. *)
Fixpoint received (events : list SelectEvent) : list sarama.ConsumerMessage :=
  match events with
  | Recv message :: rest => message :: received rest
  | _ => []
  end.

(** [&Message{Value: message.Value}] *)
Definition to_Message (message : sarama.ConsumerMessage) : Message :=
  {| Value := sarama.Value message; Attributes := [] |}.

Definition handled (effs : list Effect) : list Message :=
  omap (fun e => match e with CallHandle _ m => Some m | _ => None end) effs.

Definition handle_contexts (effs : list Effect) : list Context :=
  omap (fun e => match e with CallHandle ctx _ => Some ctx | _ => None end) effs.

Definition marked (effs : list Effect) : list (sarama.ConsumerMessage * string) :=
  omap (fun e => match e with MarkMessage m meta => Some (m, meta) | _ => None end) effs.

Definition logged_errors (effs : list Effect) : list error :=
  omap (fun e => match e with LogError err _ _ => Some err | _ => None end) effs.

(** The handler run on the messages one after the other, each on the state
    the previous one left: the errors it returns and the final state. *)
Fixpoint handle_all {H : Type} `{MessageHandler H}
    (messages : list sarama.ConsumerMessage) (h : H) : list (option error) * H :=
  match messages with
  | [] => ([], h)
  | message :: rest =>
      let '(err, h1) := Handle Background (to_Message message) h in
      let '(errs, h2) := handle_all rest h1 in
      (err :: errs, h2)
  end.

(** The loop body run on the messages one after the other: the handler
    state left and the effects. *)
Fixpoint on_messages {H : Type} `{MessageHandler H}
    (messages : list sarama.ConsumerMessage) (h : H) : H * list Effect :=
  match messages with
  | [] => (h, [])
  | message :: rest =>
      let '(h1, effs) := on_message message h in
      let '(h2, effs') := on_messages rest h1 in
      (h2, effs ++ effs')
  end.

(** How the loop ends on its events: it returns [nil] at the first event
    that is not a message, logging a line if that is the closing of the
    channel, and is waiting in [select] if there is none. *)
Fixpoint ending (events : list SelectEvent) : Outcome * list Effect :=
  match events with
  | [] => (Waiting, [])
  | Recv _ :: rest => ending rest
  | ChanClosed :: _ => (Returned None, [LogInfo "message channel was closed"])
  | CtxDone :: _ => (Returned None, [])
  end.

(** *** A session with several claims *)

Section Session.
Context {H : Type} {c_handler : MessageHandler H}.

(** sarama calls [ConsumeClaim] once for every claimed partition, each call
    in a goroutine of its own and all of them on the same handler value.
    A claim is running on the events still to come, or has returned. *)
Inductive ClaimStatus : Type :=
| Running (pending : list SelectEvent)
| Finished.

(** The session: the claims, the state of the shared handler, and the
    effects of all claims in the order they happened, each tagged with the
    index of its claim. *)
Record Session : Type := {
  claims : list ClaimStatus;
  handler_state : H;
  effects : list (nat * Effect);
}.

(** One loop iteration of one of the running claims; which claim moves
    next is not determined. *)
Inductive session_step : Session -> Session -> Prop :=
| step_message (s : Session) (i : nat) message rest :
    claims s !! i = Some (Running (Recv message :: rest)) ->
    session_step s
      {| claims := <[i := Running rest]> (claims s);
         handler_state := fst (on_message message (handler_state s));
         effects := effects s
                    ++ (pair i <$> snd (on_message message (handler_state s))) |}
| step_closed (s : Session) (i : nat) rest :
    claims s !! i = Some (Running (ChanClosed :: rest)) ->
    session_step s
      {| claims := <[i := Finished]> (claims s);
         handler_state := handler_state s;
         effects := effects s ++ [(i, LogInfo "message channel was closed")] |}
| step_done (s : Session) (i : nat) rest :
    claims s !! i = Some (Running (CtxDone :: rest)) ->
    session_step s
      {| claims := <[i := Finished]> (claims s);
         handler_state := handler_state s;
         effects := effects s |}.

Definition start (feeds : list (list SelectEvent)) (h : H) : Session :=
  {| claims := Running <$> feeds; handler_state := h; effects := [] |}.

(** The messages handed to the handler by claim [i], in order, and those
    handed over by any claim. *)
Definition handled_by (i : nat) (effs : list (nat * Effect)) : list Message :=
  handled (snd <$> filter (fun e => fst e = i) effs).

Definition handled_in_session (effs : list (nat * Effect)) : list (nat * Message) :=
  omap (fun e => match snd e with
                 | CallHandle _ m => Some (fst e, m)
                 | _ => None
                 end) effs.

Definition still_to_come (st : option ClaimStatus) : list Message :=
  match st with
  | Some (Running pending) => to_Message <$> received pending
  | _ => []
  end.

End Session.

(** *** The outer loop *)

(** The receiver.  Its [consumer] field, the sarama consumer group, is the
    environment of [Recieve] and appears below as the rounds it plays. *)
Record MessageReciever : Type := {
  topic : string;
}.

(** A call of [k.consumer.Consume(ctx, []string{k.topic}, handler)]. *)
Record ConsumeCall : Type := {
  call_ctx : Context;
  call_topics : list string;
}.

(** One iteration of the loop of [Recieve] as the environment decides it:
    what [Consume] returned, and what [ctx.Err()] is when the loop tests it
    afterwards. *)
Record Round : Type := {
  consume_err : option error;
  ctx_err : option error;
}.

(** A round after which the loop goes round again. *)
Definition quiet (r : Round) : Prop := consume_err r = None /\ ctx_err r = None.

(** [Recieve]: the outcome and the [Consume] calls made, on the rounds the
    environment provides.  With no round left the loop is inside a
    [Consume] call that has not returned. *)
Fixpoint Recieve (k : MessageReciever) (ctx : Context) (rounds : list Round)
  : Outcome * list ConsumeCall :=
  let call := {| call_ctx := ctx; call_topics := [topic k] |} in
  match rounds with
  | [] => (Waiting, [call])
  | r :: rest =>
      match consume_err r with
      | Some err => (Returned (Some err), [call])
      | None =>
          match ctx_err r with
          | Some _ => (Returned None, [call])
          | None =>
              let '(out, calls) := Recieve k ctx rest in
              (out, call :: calls)
          end
      end
  end.

End reciever.

(** ** The order-completion handler *)

Module events.

(** Modelled from the spec: the payload of a consumed message is an
    order-completion event with an order identifier and the identifier of
    the originating cart (the event type is in the missing package). *)
Record OrderCompleted : Type := {
  order_id : string;
  cart_id : string;
}.

(** The specification leaves open how a cart is cleared: by replacing its
    line items with an empty collection, or by deleting the cart. *)
Inductive Clearing : Type :=
| EmptyItems
| DeleteCart.

(** The payload of a consumed message decodes to an event, or fails. *)
Class EventCodec : Type := {
  DecodeOrderCompleted : string -> result OrderCompleted;
}.

Section OrderCompletedEventHandler.
Context {R : Type} {repo : repository.GetCreateDeleter R}.

(** Modelled from the spec: the handler of package [events] is not in the
    tree.  On receipt it resolves the cart with [get] and, if the cart is
    present, clears it; a cart that is not there is a success with nothing
    done, never a [NotFound] failure.  Any other store failure is the
    handler's error. *)
Definition handle (how : Clearing) (event : OrderCompleted) (s : R)
  : option error * R :=
  match repository.Get (cart_id event) s with
  | (Err err, s1) =>
      if Is err repositories.ErrCartNotFound then (None, s1) else (Some err, s1)
  | (Ok cart, s1) =>
      match how with
      | EmptyItems => repository.Update (repositories.with_items cart []) s1
      | DeleteCart => repository.Delete (cart_id event) s1
      end
  end.

(** The handler as [main] registers it with the consumer. *)
Definition OrderCompletedEventHandler `{EventCodec} (how : Clearing)
  : reciever.MessageHandler R :=
  {| reciever.Handle := fun _ message s =>
       match DecodeOrderCompleted (reciever.Value message) with
       | Err err => (Some err, s)
       | Ok event => handle how event s
       end |}.

End OrderCompletedEventHandler.

(** The cart of an event is cleared in a cart store: it has no line items
    or is not in the store when clearing empties the cart, it is not in the
    store when clearing deletes it. *)
Definition cleared (how : Clearing) (cartID : string) (s : gmap string Cart) : Prop :=
  match how with
  | EmptyItems =>
      from_option (fun cart => LineItems cart = []) True (s !! cartID)
  | DeleteCart => s !! cartID = None
  end.

End events.

(** ** main.go: the consumer configuration and the routes *)

Module main.

(** [time.Second], in nanoseconds *)
Definition Second : Z := 1000000000.

(** [config.Consumer.Offsets.AutoCommit.Enable = true] and
    [config.Consumer.Offsets.AutoCommit.Interval = 1 * time.Second] *)
Definition config : sarama.Config :=
  {| sarama.Consumer_Offsets_AutoCommit_Enable := true;
     sarama.Consumer_Offsets_AutoCommit_Interval := 1 * Second |}.

(** The patterns registered on the router, below [basePath + "/api/v1/cart"]. *)
Inductive Route : Type :=
| POST_cart
| GET_cart_id
| DELETE_cart_id
| PUT_cart_id
| POST_cart_id_item
| PUT_cart_id_item_itemID
| DELETE_cart_id_item_itemID.

Section router.
Context `{Codec} `{ErrorText} {R : Type} {repo : repository.GetCreateDeleter R}.

Definition router (route : Route) (w : ResponseWriter) (r : Request) (s : R)
  : option ResponseWriter * R :=
  handlers.ErrorHandler
    match route with
    | POST_cart => handlers.CartHandler.Create
    | GET_cart_id => handlers.CartHandler.Get
    | DELETE_cart_id => handlers.CartHandler.Delete
    | PUT_cart_id => handlers.CartHandler.Update
    | POST_cart_id_item => handlers.CartHandler.AddItem
    | PUT_cart_id_item_itemID => handlers.CartHandler.UpdateItem
    | DELETE_cart_id_item_itemID => handlers.CartHandler.DeleteItem
    end w r s.

End router.

Section handler.
Context `{Codec} {R : Type} {repo : repository.GetCreateDeleter R}.

(** The method of [CartHandler] each pattern is registered with. *)
Definition handler (route : Route) : handlers.HandlerFuncE R :=
  match route with
  | POST_cart => handlers.CartHandler.Create
  | GET_cart_id => handlers.CartHandler.Get
  | DELETE_cart_id => handlers.CartHandler.Delete
  | PUT_cart_id => handlers.CartHandler.Update
  | POST_cart_id_item => handlers.CartHandler.AddItem
  | PUT_cart_id_item_itemID => handlers.CartHandler.UpdateItem
  | DELETE_cart_id_item_itemID => handlers.CartHandler.DeleteItem
  end.

End handler.

(** The goroutine [main] starts for the consumer: [Recieve] on the topic of
    the configuration with [ctx], which is [context.Background()]; whatever
    [Recieve] returns is logged at error level with the message below, and
    the goroutine ends.  The result is the log line written, if [Recieve]
    has returned, and the [Consume] calls made. *)
Definition recieve_goroutine (OrdersTopic : string) (rounds : list reciever.Round)
  : option (option error * string) * list reciever.ConsumeCall :=
  let msgReciever := {| reciever.topic := OrdersTopic |} in
  let '(out, calls) := reciever.Recieve msgReciever context.Background rounds in
  (match out with
   | reciever.Returned recieveErr => Some (recieveErr, "Error recieving messages")
   | reciever.Waiting => None
   end, calls).

End main.

(** ** order-api: UserCheckoutEventHandler.java *)

Module order_api.

Record UserCheckoutEvent : Type := {
  event_text : string;
}.

(** A thrown [java.lang.Exception]. *)
Record Exception : Type := {
  getMessage : string;
}.

#[global] Instance Exception_eq_dec : EqDecision Exception.
Proof. solve_decision. Defined.

(** [CheckoutService.Checkout]: returns, or throws; either way it may have
    changed the state [S] of the service. *)
Class CheckoutService (S : Type) : Type := {
  Checkout : UserCheckoutEvent -> S -> option Exception * S;
}.

(** How a message was settled with the broker. *)
Inductive Settlement : Type :=
| Ack
| Nack (reason : Exception).

#[global] Instance Settlement_eq_dec : EqDecision Settlement.
Proof. solve_decision. Defined.

(** A [Message<UserCheckoutEvent>] with manual acknowledgment: its payload
    and the settlements made on it so far. *)
Record Message : Type := {
  getPayload : UserCheckoutEvent;
  settlements : list Settlement;
}.

Definition ack (message : Message) : Message :=
  {| getPayload := getPayload message;
     settlements := settlements message ++ [Ack] |}.

Definition nack (e : Exception) (message : Message) : Message :=
  {| getPayload := getPayload message;
     settlements := settlements message ++ [Nack e] |}.

Inductive LogLine : Type :=
| info (text : string)
| error_ (text : string) (e : Exception).

Section UserCheckoutEventHandler.
Context {S : Type} {checkout : CheckoutService S}.

(** [Handle]: the message as settled, the state of the service and the log
    lines. *)
Definition Handle (message : Message) (s : S) : Message * S * list LogLine :=
  let log1 := [info "received user checkout event: "] in
  match Checkout (getPayload message) s with
  | (None, s1) => (ack message, s1, log1)
  | (Some e, s1) =>
      (nack e message, s1,
       log1 ++ [error_ "Error processing user checkout event: " e])
  end.

End UserCheckoutEventHandler.

End order_api.

(** ** JavaScript: thrown values, promises, the environment *)

Module js.

(** A thrown value, by its message: [new Error(message)], or the error a
    library call throws or rejects with. *)
Inductive Thrown : Type :=
| new_Error (message : string).

#[global] Instance Thrown_eq_dec : EqDecision Thrown.
Proof. solve_decision. Defined.

(** The state of the promise an [async] function returns, as far as the
    events given to it decide it. *)
Inductive Promise (A : Type) : Type :=
| Resolved (a : A)
| Rejected (error : Thrown)
| Pending.
Arguments Resolved {A} a.
Arguments Rejected {A} error.
Arguments Pending {A}.

(** [process.env.NAME] inside a string concatenation or a template
    literal: an unset variable reads as the text [undefined]. *)
Definition env_text (value : option string) : string := default "undefined" value.

End js.

(** ** checkout-api: routes.ts *)

Module checkout_api.
Import js.

(** What the route imports from modules that are not in the tree: the
    request schema ([UserCheckoutSchema.parse] throws on an invalid body),
    the [Checkout] function, which acts on a state [S] and may reject, and
    the two fields read from its result. *)
Class Imports (S : Type) : Type := {
  Body : Type;
  UserCheckoutReq : Type;
  CheckoutResult : Type;
  UserCheckoutSchema_parse : Body -> Thrown + UserCheckoutReq;
  Checkout : UserCheckoutReq -> string -> S -> (Thrown + CheckoutResult) * S;
  checkout_id : CheckoutResult -> string;
  transaction_id : CheckoutResult -> string;
}.

(** What is passed to [res.send]. *)
Inductive Sent : Type :=
| SentIds (checkout_id transaction_id : string)
| SentError (error_message : Thrown).

(** The express response: the status code (200 unless set) and the bodies
    sent. *)
Record Response : Type := {
  statusCode : Z;
  sent : list Sent;
}.

Definition NewResponse : Response := {| statusCode := 200; sent := [] |}.

Definition status (code : Z) (res : Response) : Response :=
  {| statusCode := code; sent := sent res |}.

Definition send (body : Sent) (res : Response) : Response :=
  {| statusCode := statusCode res; sent := sent res ++ [body] |}.

Section routes.
Context {S : Type} {imports : Imports S}.

(** The handler of [POST /api/v1/checkout]: the response, the state of the
    checkout service, and what [logger.error] was given. *)
Definition post_checkout (body : Body) (res : Response) (s : S)
  : Response * S * list Thrown :=
  match UserCheckoutSchema_parse body with
  | inl error => (send (SentError error) (status 500 res), s, [error])
  | inr checkoutReq =>
      let userId := "anon" in
      match Checkout checkoutReq userId s with
      | (inl error, s1) => (send (SentError error) (status 500 res), s1, [error])
      | (inr checkout, s1) =>
          (send (SentIds (checkout_id checkout) (transaction_id checkout)) res,
           s1, [])
      end
  end.

End routes.

(** The imports wrapped so that every call of [Checkout] is recorded with
    its arguments. *)
Definition recorded {S : Type} (imports : Imports S)
  : Imports (S * list (UserCheckoutReq * string)) :=
  {| Body := Body;
     UserCheckoutReq := UserCheckoutReq;
     CheckoutResult := CheckoutResult;
     UserCheckoutSchema_parse := UserCheckoutSchema_parse;
     Checkout := fun req userId '(s, log) =>
       let '(result, s1) := Checkout req userId s in
       (result, (s1, log ++ [(req, userId)]));
     checkout_id := checkout_id;
     transaction_id := transaction_id |}.

End checkout_api.

(** ** The frontend's fetch helpers *)

Module frontend.
Import js.

Section fetch.
Context {J : Type}.

(** A response of [fetch]: its status and what [response.json()] gives, a
    value [J] or a thrown error. *)
Record Response : Type := {
  status : Z;
  json : Thrown + J;
}.

(** [response.ok]: the status is in the range 200-299. *)
Definition ok (response : Response) : bool :=
  (200 <=? status response) && (status response <=? 299).

(** What one call of [fetch] comes to: a response, or a rejection. *)
Inductive FetchOutcome : Type :=
| Responds (response : Response)
| Fails (error : Thrown).

Inductive Effect : Type :=
| Sleep (ms : Z)
| Fetch (url : string)
| FetchNoStore (url : string) (tag : string)
| LogError (error : Thrown) (msg : string)
| RevalidateTag (tag : string).

(** What [fetchWithRetry] resolves with: the JSON of a response, or, when
    it gives up, the last error, returned and not thrown. *)
Inductive Fetched : Type :=
| Data (data : J)
| GaveUp (error : Thrown).

(** The [try] block of [fetchWithRetry] on the outcome of its [fetch]. *)
Definition try_fetch (o : FetchOutcome) : Thrown + J :=
  match o with
  | Fails error => inl error
  | Responds response =>
      if ok response then json response
      else if decide (status response = 500)
           then inl (new_Error "Server Error (500)")
           else inl (new_Error ("HTTP Error: " +:+ pretty (status response)))
  end.

(** [fetchWithRetry(url, retryCount = 5)] on the outcomes of its [fetch]
    calls, one per attempt: the promise and the effects.  With no outcome
    left the function is awaiting a [fetch].  The count is an integer. *)
Fixpoint fetchWithRetry (script : list FetchOutcome) (url : string)
    (retryCount : option Z) : Promise Fetched * list Effect :=
  let retryCount := default 5 retryCount in
  match script with
  | [] => (Pending, [Sleep 1000; FetchNoStore url "retried"])
  | o :: rest =>
      match try_fetch o with
      | inr data => (Resolved (Data data), [Sleep 1000; FetchNoStore url "retried"])
      | inl error =>
          let effs := [Sleep 1000; FetchNoStore url "retried";
                       LogError error "fetch failed"; RevalidateTag "retried"] in
          if decide (retryCount <> 0)
          then let '(p, effs') := fetchWithRetry rest url (Some (retryCount - 1)) in
               (p, effs ++ effs')
          else (Resolved (GaveUp error), effs)
      end
  end.

(** The number of [fetch] calls among the effects, and the time slept. *)
Definition attempts (effs : list Effect) : nat :=
  foldr (fun e n => match e with
                    | Fetch _ | FetchNoStore _ _ => Datatypes.S n
                    | _ => n
                    end) 0%nat effs.

Definition slept (effs : list Effect) : Z :=
  foldr (fun e acc => match e with Sleep ms => ms + acc | _ => acc end) 0 effs.

(** An attempt fails when its [try] block throws. *)
Definition fails (o : FetchOutcome) : Prop :=
  exists error, try_fetch o = inl error.

End fetch.

Arguments Response J : clear implicits.
Arguments FetchOutcome J : clear implicits.
Arguments Fetched J : clear implicits.

(** A food item: its image path and the rest of its fields, whose type is
    declared in a module that is not in the tree. *)
Record FoodItem (Other : Type) : Type := {
  image : string;
  other : Other;
}.
Arguments image {Other} _.
Arguments other {Other} _.

(** The zod schemas of the missing modules; [parse] throws on a value
    that does not fit.  [OrderSchema.parse] is applied to whatever
    [fetchWithRetry] resolved with. *)
Class Schemas (J : Type) : Type := {
  Other : Type;
  Categories : Type;
  CustomerOrder : Type;
  FoodItemsScheme_parse : J -> Thrown + list (FoodItem Other);
  CategoriesScheme_parse : J -> Thrown + Categories;
  OrderSchema_parse : Fetched J -> Thrown + CustomerOrder;
}.

Section helpers.
Context {J : Type} {schemas : Schemas J}.

(** [INTERNAL_API_BASE_URL] is the value of the environment variable, if
    set.  Each of the functions below makes one [fetch], whose outcome is
    [o]; the result is the value returned or the error thrown. *)
Definition fetchItems (INTERNAL_API_BASE_URL : option string)
    (o : FetchOutcome J) (apiUrl : string)
  : (Thrown + list (FoodItem Other)) * list Effect :=
  (match o with
   | Fails error => inl error
   | Responds res =>
       if negb (ok res) then inl (new_Error "Failed to fetch catalog items data")
       else match json res with
            | inl error => inl error
            | inr data =>
                match FoodItemsScheme_parse data with
                | inl error => inl error
                | inr items =>
                    inr ((fun item =>
                            {| image := env_text INTERNAL_API_BASE_URL +:+ image item;
                               other := other item |}) <$> items)
                end
            end
   end, [Fetch apiUrl]).

Definition fetchFoodItems (INTERNAL_API_BASE_URL : option string)
    (o : FetchOutcome J) :=
  fetchItems INTERNAL_API_BASE_URL o
    (env_text INTERNAL_API_BASE_URL +:+ "/catalog/items/all").

Definition fetchFoodItemsByCategory (INTERNAL_API_BASE_URL : option string)
    (o : FetchOutcome J) (category : string) :=
  fetchItems INTERNAL_API_BASE_URL o
    (env_text INTERNAL_API_BASE_URL +:+ "/catalog/items/all?category_name="
       +:+ category).

Definition fetchCategories (INTERNAL_API_BASE_URL : option string)
    (o : FetchOutcome J) : (Thrown + Categories) * list Effect :=
  (match o with
   | Fails error => inl error
   | Responds res =>
       if negb (ok res) then inl (new_Error "Failed to fetch categories data")
       else match json res with
            | inl error => inl error
            | inr data => CategoriesScheme_parse data
            end
   end, [Fetch (env_text INTERNAL_API_BASE_URL +:+ "/catalog/categories")]).

Definition getUserInfo (INTERNAL_API_BASE_URL : option string)
    (o : FetchOutcome J) (userId : string) : (Thrown + J) * list Effect :=
  (match o with
   | Fails error => inl error
   | Responds res =>
       if negb (ok res) then inl (new_Error "Failed to fetch user info")
       else json res
   end, [Fetch (env_text INTERNAL_API_BASE_URL +:+ "/users/" +:+ userId)]).

(** [getOrderByTransactionID]: whatever is thrown inside its [try] is
    logged and replaced by one fixed error. *)
Definition getOrderByTransactionID (INTERNAL_API_BASE_URL : option string)
    (script : list (FetchOutcome J)) (transactionId : string)
  : Promise CustomerOrder * list Effect :=
  let apiUrl := env_text INTERNAL_API_BASE_URL
                +:+ "/order/api/v1/orders/find?transactionId=" +:+ transactionId in
  match fetchWithRetry script apiUrl (Some 5) with
  | (Pending, effs) => (Pending, effs)
  | (Resolved data, effs) =>
      match OrderSchema_parse data with
      | inr order => (Resolved order, effs)
      | inl error =>
          (Rejected (new_Error "Failed to fetch user orders"),
           effs ++ [LogError error "failed to fetch order"])
      end
  | (Rejected error, effs) =>
      (Rejected (new_Error "Failed to fetch user orders"),
       effs ++ [LogError error "failed to fetch order"])
  end.

End helpers.

End frontend.

(** ** Concrete instances used in the examples *)

Module fixtures.

(** Requests that carry the cart, respectively the new line items. *)
#[global] Instance requests : Requests := {
  CreateCartReq := Cart;
  UpdateCartReq := list LineItem;
  MapCreateCartReqToCart := fun req => req;
  MapUpdateCartReqToCart := fun cart items => repositories.with_items cart items;
}.

Definition burger (quantity : Z) : LineItem :=
  {| ItemID := 10; Quantity := quantity; Attributes := "burger" |}.

Definition cart1 (items : list LineItem) : Cart :=
  {| ID := "cart1"; LineItems := items; Meta := "anon" |}.

(** A codec on a two-word wire format: the body ["burger"] is one burger,
    ["cart1"] is the empty cart1, ["items"] a list with two burgers;
    anything else does not decode. *)
#[global] Instance codec : Codec := {
  DecodeCreateCartReq := fun body =>
    if decide (body = "cart1") then Ok (cart1 []) else Err (New "unexpected EOF");
  DecodeUpdateCartReq := fun body =>
    if decide (body = "items") then Ok [burger 2] else Err (New "unexpected EOF");
  DecodeLineItem := fun body =>
    if decide (body = "burger") then Ok (burger 1) else Err (New "unexpected EOF");
  Marshal := fun cart => Ok (ID cart);
}.

#[global] Instance error_text : ErrorText := {
  Error := fun err =>
    match err with
    | HTTPError _ _ => "http error"
    | _ => "error"
    end;
}.

Definition request (id itemID body : string) : Request :=
  {| URLPath := "/api/v1/cart";
     PathValues := {[ "id" := id; "itemID" := itemID ]};
     Body := body |}.



(** A message handler that records the payloads it is given and fails on
    the payload ["bad"]. *)
#[global] Instance recording : reciever.MessageHandler (list string) := {
  reciever.Handle := fun _ message seen =>
    (if decide (reciever.Value message = "bad")
     then Some (New "bad payload") else None,
     seen ++ [reciever.Value message]);
}.

Definition message (partition offset : Z) (value : string) : sarama.ConsumerMessage :=
  {| sarama.Topic := "orders"; sarama.Partition := partition;
     sarama.Offset := offset; sarama.Timestamp := 0; sarama.Value := value |}.

Definition quiet_round : reciever.Round :=
  {| reciever.consume_err := None; reciever.ctx_err := None |}.

(** [Consume] returned [nil] and the context is cancelled. *)
Definition cancelled_round : reciever.Round :=
  {| reciever.consume_err := None;
     reciever.ctx_err := Some (Sentinel "context.Canceled") |}.

(** [Consume] failed. *)
Definition failed_round : reciever.Round :=
  {| reciever.consume_err := Some (New "kafka: client has run out of available brokers");
     reciever.ctx_err := None |}.

(** Events on the wire as ["order:cart"], here only for order1 of cart1. *)
#[global] Instance event_codec : events.EventCodec := {
  events.DecodeOrderCompleted := fun value =>
    if decide (value = "order1:cart1")
    then Ok {| events.order_id := "order1"; events.cart_id := "cart1" |}
    else Err (New "unexpected EOF");
}.

(** A checkout service that counts its calls and throws on ["bad"]. *)
#[global] Instance counting_checkout : order_api.CheckoutService nat := {
  order_api.Checkout := fun event n =>
    (if decide (order_api.event_text event = "bad")
     then Some {| order_api.getMessage := "checkout failed" |} else None,
     S n);
}.

(** A repository whose store cannot be reached: every method fails. *)
Definition unreachable : error := New "dial tcp: connection refused".

Definition broken : repository.GetCreateDeleter unit :=
  {| repository.Get := fun _ s => (Err unreachable, s);
     repository.Update := fun _ s => (Some unreachable, s);
     repository.Delete := fun _ s => (Some unreachable, s);
     repository.AddItem := fun _ _ s => (Some unreachable, s);
     repository.UpdateItem := fun _ _ _ s => (Some unreachable, s);
     repository.DeleteItem := fun _ _ s => (Some unreachable, s) |}.

(** The imports of the checkout route on text bodies: an empty body is
    invalid, the request ["fail"] makes [Checkout] reject, and the state
    counts the calls of [Checkout]. *)
Definition checkout_imports : checkout_api.Imports nat :=
  {| checkout_api.Body := string;
     checkout_api.UserCheckoutReq := string;
     checkout_api.CheckoutResult := string * string * string;
     checkout_api.UserCheckoutSchema_parse := fun body =>
       if decide (body = "") then inl (js.new_Error "Required") else inr body;
     checkout_api.Checkout := fun req userId n =>
       (if decide (req = "fail") then inl (js.new_Error "broker unreachable")
        else inr ("checkout-1", "transaction-1", userId), S n);
     checkout_api.checkout_id := fun result => fst (fst result);
     checkout_api.transaction_id := fun result => snd (fst result) |}.

(** Schemas on JSON values that are lists of strings: food items are
    given by their image paths, an order is a list with one string. *)
Definition schemas : frontend.Schemas (list string) :=
  {| frontend.Other := unit;
     frontend.Categories := list string;
     frontend.CustomerOrder := string;
     frontend.FoodItemsScheme_parse := fun data =>
       inr ((fun path => {| frontend.image := path; frontend.other := tt |}) <$> data);
     frontend.CategoriesScheme_parse := fun data => inr data;
     frontend.OrderSchema_parse := fun fetched =>
       match fetched with
       | frontend.Data [order] => inr order
       | _ => inl (js.new_Error "invalid order")
       end |}.

Definition responds (status : Z) (data : list string)
  : frontend.FetchOutcome (list string) :=
  frontend.Responds {| frontend.status := status; frontend.json := inr data |}.

Definition unreachable_fetch : frontend.FetchOutcome (list string) :=
  frontend.Fails (js.new_Error "fetch failed").

End fixtures.

(** ** Properties of the handlers *)

Section HandlerFacts.
Context `{Codec} `{ErrorText} {R : Type} {repo : repository.GetCreateDeleter R}.
Implicit Types (w : ResponseWriter) (r : Request) (s : R).

Lemma WriteHeader_sent code w c :
  status w = Some c ->
  exists w', WriteHeader code w = Some w'
    /\ status w' = Some c /\ body w' = body w
    /\ calls w' = calls w ++ [CallWriteHeader code].
Proof.
  intros Hs. unfold WriteHeader. rewrite Hs. eexists. split; [reflexivity|].
  simpl. auto.
Qed.

Lemma WriteHeader_first code w :
  status w = None -> 100 <= code <= 999 ->
  exists w', WriteHeader code w = Some w'
    /\ status w' = Some code /\ body w' = body w
    /\ calls w' = calls w ++ [CallWriteHeader code].
Proof.
  intros Hs Hc. unfold WriteHeader. rewrite Hs.
  replace ((code <? 100) || (999 <? code)) with false.
  - eexists. split; [reflexivity|]. simpl. auto.
  - symmetry. apply orb_false_intro; apply Z.ltb_ge; lia.
Qed.


Lemma http_Error_writes w text code :
  100 <= code <= 999 ->
  exists w', http.Error_ w text code = Some w'
    /\ status w' = Some (default code (status w))
    /\ calls w' = calls w
         ++ [CallHeaderSet "Content-Type" "text/plain; charset=utf-8";
             CallHeaderSet "X-Content-Type-Options" "nosniff";
             CallWriteHeader code;
             CallWrite (text +:+ "
")].
Proof.
  intros Hc. unfold http.Error_.
  set (w2 := HeaderSet _ _ (HeaderSet _ _ w)).
  assert (Hst : status w2 = status w) by reflexivity.
  assert (Hcl : calls w2 = calls w
            ++ [CallHeaderSet "Content-Type" "text/plain; charset=utf-8";
                CallHeaderSet "X-Content-Type-Options" "nosniff"]).
  { subst w2. simpl. by rewrite <- app_assoc. }
  destruct (status w) as [c|] eqn:Hs.
  - destruct (WriteHeader_sent code w2 c Hst) as (w3 & -> & Hs3 & _ & Hc3).
    simpl. eexists. split; [reflexivity|]. simpl. rewrite Hs3, Hc3, Hcl.
    split; [done|]. by rewrite <- !app_assoc.
  - destruct (WriteHeader_first code w2 Hst Hc) as (w3 & -> & Hs3 & _ & Hc3).
    simpl. eexists. split; [reflexivity|]. simpl. rewrite Hs3, Hc3, Hcl.
    split; [done|]. by rewrite <- !app_assoc.
Qed.

End HandlerFacts.

Section ErrorHandlerFacts.
Context `{ErrorText} {R : Type}.
Implicit Types (w : ResponseWriter) (r : Request) (s : R).


Lemma ErrorHandler_HTTPError (f : handlers.HandlerFuncE R) w r s e w1 s1 code e' :
  f w r s = (Some e, w1, s1) ->
  AsHTTPError e = Some (code, e') ->
  100 <= code <= 999 ->
  exists w2 w3,
    http.Error_ w1 (Error (HTTPError code e')) code = Some w2
    /\ status w2 = Some (default code (status w1))
    /\ handlers.ErrorHandler f w r s = (Some w3, s1)
    /\ calls w3 = calls w2 ++ [CallWriteHeader StatusOK]
    /\ body w3 = body w2
    /\ status w3 = status w2.
Proof.
  intros Hf Has Hcode. unfold handlers.ErrorHandler. rewrite Hf, Has.
  destruct (http_Error_writes w1 (Error (HTTPError code e')) code Hcode)
    as (w2 & Herr & Hst & _).
  rewrite Herr. simpl.
  destruct (WriteHeader_sent StatusOK w2 _ Hst) as (w3 & Hw3 & Hst3 & Hb3 & Hc3).
  rewrite Hw3. exists w2, w3. rewrite Hst3, Hst. repeat split; auto.
Qed.


End ErrorHandlerFacts.


(** *** strconv.Atoi: what it accepts and how it fails *)

Lemma is_digit_value (c : ascii) :
  strconv.is_digit c = true -> 0 <= strconv.digit_value c <= 9.
Proof.
  unfold strconv.is_digit, strconv.digit_value. intros Hd.
  apply andb_true_iff in Hd. destruct Hd as [H1 H2].
  apply Z.leb_le in H1. apply Z.leb_le in H2. lia.
Qed.

Lemma parse_digits_not_all_digits (digits : string) (n : Z) :
  strconv.all_digits digits = false -> strconv.parse_digits digits n = None.
Proof.
  revert n. induction digits as [|ch rest IH]; intros n; simpl; [discriminate|].
  destruct (strconv.is_digit ch); simpl; [apply IH | reflexivity].
Qed.

Lemma parse_digits_Some_all_digits (digits : string) (n m : Z) :
  strconv.parse_digits digits n = Some m -> strconv.all_digits digits = true.
Proof.
  revert n. induction digits as [|ch rest IH]; intros n; simpl; [reflexivity|].
  destruct (strconv.is_digit ch); simpl; [apply IH | discriminate].
Qed.

(** The fast path cannot overflow: [k] digits read from 0 stay below
    [10 ^ k]. *)
Lemma parse_digits_bound (digits : string) (n m : Z) :
  0 <= n ->
  strconv.parse_digits digits n = Some m ->
  0 <= m < (n + 1) * 10 ^ Z.of_nat (String.length digits).
Proof.
  revert n. induction digits as [|ch rest IH]; intros n Hn; simpl.
  - intros [= <-]. change (10 ^ Z.of_nat 0) with 1. lia.
  - destruct (strconv.is_digit ch) eqn:Hd; [|discriminate].
    intros Hp. pose proof (is_digit_value ch Hd) as Hv.
    apply IH in Hp; [|lia].
    rewrite Nat2Z.inj_succ, Z.pow_succ_r by lia.
    assert (Hpow : 0 < 10 ^ Z.of_nat (String.length rest))
      by (apply Z.pow_pos_nonneg; lia).
    nia.
Qed.

Lemma ParseUint_loop_shape (s0 digits : string) (n : Z) :
  0 <= n <= strconv.maxUint64 ->
  (exists un,
     strconv.ParseUint_loop s0 digits n = (un, None)
     /\ strconv.all_digits digits = true
     /\ 0 <= un <= strconv.maxUint64)
  \/ (strconv.ParseUint_loop s0 digits n
      = (0, Some (strconv.syntaxError "ParseUint" s0))
      /\ strconv.all_digits digits = false)
  \/ strconv.ParseUint_loop s0 digits n
     = (strconv.maxUint64, Some (strconv.rangeError "ParseUint" s0)).
Proof.
  revert n. induction digits as [|c rest IH]; intros n Hn; simpl.
  - left. exists n. auto.
  - destruct (strconv.is_digit c) eqn:Hd; simpl; [|right; left; auto].
    destruct (strconv.maxUint64 / 10 + 1 <=? n); [right; right; reflexivity|].
    destruct (_ || _); [right; right; reflexivity|].
    apply IH. unfold strconv.maxUint64.
    pose proof (Z.mod_pos_bound ((n * 10) mod 2 ^ 64 + strconv.digit_value c)
                  (2 ^ 64) ltac:(lia)).
    lia.
Qed.

Lemma ParseInt_unsigned_cases (s0 : string) (neg : bool) (digits : string) :
  (exists n,
     strconv.ParseInt_unsigned s0 neg digits = Ok n
     /\ digits <> EmptyString
     /\ strconv.all_digits digits = true
     /\ strconv.minInt <= n <= strconv.maxInt)
  \/ exists kind,
       strconv.ParseInt_unsigned s0 neg digits = Err (NumError "ParseInt" s0 kind)
       /\ (kind = strconv.ErrSyntax \/ kind = strconv.ErrRange).
Proof.
  unfold strconv.ParseInt_unsigned, strconv.ParseUint.
  destruct digits as [|d rest].
  { right. exists strconv.ErrSyntax. split; [reflexivity | by left]. }
  destruct (ParseUint_loop_shape (String d rest) (String d rest) 0)
    as [(un & Hrun & Hall & Hun) | [[Hrun Hall] | Hrun]];
    [unfold strconv.maxUint64; lia | | |]; rewrite Hrun.
  - destruct neg; simpl.
    + destruct (2 ^ 63 <? un) eqn:Hcut.
      * right. exists strconv.ErrRange. split; [reflexivity | by right].
      * left. exists (- un). apply Z.ltb_ge in Hcut.
        unfold strconv.minInt, strconv.maxInt. repeat split; auto; lia.
    + destruct (2 ^ 63 <=? un) eqn:Hcut.
      * right. exists strconv.ErrRange. split; [reflexivity | by right].
      * left. exists un. apply Z.leb_gt in Hcut.
        unfold strconv.minInt, strconv.maxInt. repeat split; auto; lia.
  - right. exists strconv.ErrSyntax. split; [reflexivity | by left].
  - right. exists strconv.ErrRange. split; [by destruct neg | by right].
Qed.

Lemma ParseInt_cases (s : string) :
  (exists n,
     strconv.ParseInt s = Ok n
     /\ strconv.is_decimal_integer s = true
     /\ strconv.minInt <= n <= strconv.maxInt)
  \/ exists kind,
       strconv.ParseInt s = Err (NumError "ParseInt" s kind)
       /\ (kind = strconv.ErrSyntax \/ kind = strconv.ErrRange).
Proof.
  destruct s as [|c tail].
  { right. exists strconv.ErrSyntax. split; [reflexivity | by left]. }
  unfold strconv.ParseInt, strconv.is_decimal_integer.
  destruct (decide (c = "+"%char)) as [->|Hplus].
  - destruct (ParseInt_unsigned_cases (String "+" tail) false tail)
      as [(n & Hrun & Hne & Hall & Hn) | Herr]; [|by right].
    left. exists n. split; [exact Hrun|]. split; [|exact Hn].
    simpl. by destruct tail.
  - destruct (decide (c = "-"%char)) as [->|Hminus].
    + destruct (ParseInt_unsigned_cases (String "-" tail) true tail)
        as [(n & Hrun & Hne & Hall & Hn) | Herr]; [|by right].
      left. exists n. split; [exact Hrun|]. split; [|exact Hn].
      simpl. by destruct tail.
    + destruct (ParseInt_unsigned_cases (String c tail) false (String c tail))
        as [(n & Hrun & Hne & Hall & Hn) | Herr]; [|by right].
      left. exists n. split; [exact Hrun|]. split; [|exact Hn].
      simpl. exact Hall.
Qed.

(** What [Atoi] accepts has the syntax of a decimal integer and fits an
    [int]. *)
Lemma Atoi_Ok (str : string) (n : Z) :
  strconv.Atoi str = Ok n ->
  strconv.is_decimal_integer str = true
  /\ strconv.minInt <= n <= strconv.maxInt.
Proof.
  unfold strconv.Atoi.
  destruct ((0 <? String.length str)%nat && (String.length str <? 19)%nat)
    eqn:Hfast.
  - apply andb_true_iff in Hfast. destruct Hfast as [_ Hlen].
    apply Nat.ltb_lt in Hlen.
    destruct str as [|s0 tail]; [discriminate|].
    unfold strconv.is_decimal_integer.
    assert (Hsmall : forall digits m,
              (String.length digits <= 18)%nat ->
              strconv.parse_digits digits 0 = Some m ->
              0 <= m < 10 ^ 18).
    { intros digits m Hd Hp. apply parse_digits_bound in Hp; [|lia].
      assert (10 ^ Z.of_nat (String.length digits) <= 10 ^ 18)
        by (apply Z.pow_le_mono_r; lia).
      lia. }
    simpl in Hlen.
    destruct (decide (s0 = "-"%char)) as [->|Hminus]; cbn [orb].
    + destruct tail as [|t0 tail']; [discriminate|].
      destruct (strconv.parse_digits (String t0 tail') 0) as [m|] eqn:Hp;
        [|discriminate].
      intros [= <-]. split; [by eapply parse_digits_Some_all_digits|].
      apply Hsmall in Hp; [|simpl in *; lia].
      unfold strconv.minInt, strconv.maxInt. lia.
    + destruct (decide (s0 = "+"%char)) as [->|Hplus]; cbn [orb].
      * destruct tail as [|t0 tail']; [discriminate|].
        destruct (strconv.parse_digits (String t0 tail') 0) as [m|] eqn:Hp;
          [|discriminate].
        intros [= <-]. split; [by eapply parse_digits_Some_all_digits|].
        apply Hsmall in Hp; [|simpl in *; lia].
        unfold strconv.minInt, strconv.maxInt. lia.
      * destruct (strconv.parse_digits (String s0 tail) 0) as [m|] eqn:Hp;
          [|discriminate].
        intros [= <-]. split; [by eapply parse_digits_Some_all_digits|].
        apply Hsmall in Hp; [|simpl in *; lia].
        unfold strconv.minInt, strconv.maxInt. lia.
  - destruct (ParseInt_cases str) as [(m & -> & Hsyn & Hm) | (kind & -> & _)];
      [|discriminate].
    by intros [= <-].
Qed.

(** Every error of [Atoi] is a [NumError] of [Atoi] on the whole string,
    for its syntax or for its range. *)
Lemma Atoi_Err (str : string) (err : error) :
  strconv.Atoi str = Err err ->
  exists kind,
    err = NumError "Atoi" str kind
    /\ (kind = strconv.ErrSyntax \/ kind = strconv.ErrRange).
Proof.
  unfold strconv.Atoi.
  destruct ((0 <? String.length str)%nat && (String.length str <? 19)%nat).
  - destruct str as [|s0 tail].
    { intros [= <-]. exists strconv.ErrSyntax. split; [reflexivity | by left]. }
    destruct (if _ || _ then tail else String s0 tail) as [|d rest].
    { intros [= <-]. exists strconv.ErrSyntax. split; [reflexivity | by left]. }
    destruct (strconv.parse_digits (String d rest) 0); [discriminate|].
    intros [= <-]. exists strconv.ErrSyntax. split; [reflexivity | by left].
  - destruct (ParseInt_cases str) as [(m & -> & _) | (kind & -> & Hkind)];
      [discriminate|].
    intros [= <-]. exists kind. auto.
Qed.

Lemma Atoi_rejects_non_decimal (itemID : string) :
  strconv.is_decimal_integer itemID = false ->
  exists kind,
    strconv.Atoi itemID = Err (NumError "Atoi" itemID kind)
    /\ (kind = strconv.ErrSyntax \/ kind = strconv.ErrRange).
Proof.
  intros Hbad. destruct (strconv.Atoi itemID) as [n|err] eqn:Ha.
  - apply Atoi_Ok in Ha. destruct Ha as [Hsyn _]. congruence.
  - destruct (Atoi_Err itemID err Ha) as (kind & -> & Hkind). eauto.
Qed.

(** A string with the syntax of a decimal integer fails only by its size. *)
Lemma parse_digits_all_digits (digits : string) (n : Z) :
  strconv.all_digits digits = true -> is_Some (strconv.parse_digits digits n).
Proof.
  revert n. induction digits as [|ch rest IH]; intros n; simpl; [eauto|].
  destruct (strconv.is_digit ch); simpl; [apply IH | discriminate].
Qed.

Section ItemHandlersFacts.
Context `{Codec} `{ErrorText} {R : Type} {repo : repository.GetCreateDeleter R}.
Implicit Types (w : ResponseWriter) (r : Request) (s : R).

Lemma router_HTTPError (route : main.Route) w r s code e s1 :
  match route with
  | main.POST_cart => handlers.CartHandler.Create
  | main.GET_cart_id => handlers.CartHandler.Get
  | main.DELETE_cart_id => handlers.CartHandler.Delete
  | main.PUT_cart_id => handlers.CartHandler.Update
  | main.POST_cart_id_item => handlers.CartHandler.AddItem
  | main.PUT_cart_id_item_itemID => handlers.CartHandler.UpdateItem
  | main.DELETE_cart_id_item_itemID => handlers.CartHandler.DeleteItem
  end w r s = (Some (NewHTTPError code e), w, s1) ->
  status w = None ->
  100 <= code <= 999 ->
  exists w1, main.router route w r s = (Some w1, s1) /\ status w1 = Some code.
Proof.
  intros Hf Hw Hcode. unfold main.router.
  destruct (ErrorHandler_HTTPError _ w r s _ w s1 code e Hf eq_refl Hcode)
    as (w2 & w3 & _ & Hs2 & Hrun & _ & _ & Hs3).
  exists w3. split; [exact Hrun|]. by rewrite Hs3, Hs2, Hw.
Qed.

(** C10.  When the [itemID] segment of the path is not a decimal integer,
    [strconv.Atoi] fails, with a [NumError] on that segment for its syntax
    or, when its digits overflow before the offending byte is reached, for
    its range; [UpdateItem] and [DeleteItem] return this error under status
    400 and leave the writer and the store of any repository as they were:
    no repository method has run.  Through [ErrorHandler] the response has
    status 400 and the store is still unchanged. *)
Theorem item_handlers_reject_bad_itemID w r s :
  strconv.is_decimal_integer (PathValue "itemID" r) = false ->
  exists kind,
    (kind = strconv.ErrSyntax \/ kind = strconv.ErrRange)
    /\ strconv.Atoi (PathValue "itemID" r)
       = Err (NumError "Atoi" (PathValue "itemID" r) kind)
    /\ handlers.CartHandler.UpdateItem w r s
       = (Some (NewHTTPError StatusBadRequest
                  (NumError "Atoi" (PathValue "itemID" r) kind)), w, s)
    /\ handlers.CartHandler.DeleteItem w r s
       = (Some (NewHTTPError StatusBadRequest
                  (NumError "Atoi" (PathValue "itemID" r) kind)), w, s)
    /\ (status w = None ->
        exists w1 w2,
          main.router main.PUT_cart_id_item_itemID w r s = (Some w1, s)
          /\ status w1 = Some StatusBadRequest
          /\ main.router main.DELETE_cart_id_item_itemID w r s = (Some w2, s)
          /\ status w2 = Some StatusBadRequest).
Proof.
  intros Hbad. apply Atoi_rejects_non_decimal in Hbad.
  destruct Hbad as (kind & Hbad & Hkind). exists kind.
  assert (Hu : handlers.CartHandler.UpdateItem w r s
    = (Some (NewHTTPError StatusBadRequest
               (NumError "Atoi" (PathValue "itemID" r) kind)), w, s)).
  { unfold handlers.CartHandler.UpdateItem. by rewrite Hbad. }
  assert (Hd : handlers.CartHandler.DeleteItem w r s
    = (Some (NewHTTPError StatusBadRequest
               (NumError "Atoi" (PathValue "itemID" r) kind)), w, s)).
  { unfold handlers.CartHandler.DeleteItem. by rewrite Hbad. }
  split; [exact Hkind|]. split; [exact Hbad|].
  split; [exact Hu|]. split; [exact Hd|]. intros Hw.
  assert (Hcode : 100 <= StatusBadRequest <= 999) by (unfold StatusBadRequest; lia).
  destruct (router_HTTPError main.PUT_cart_id_item_itemID w r s _ _ s Hu Hw Hcode)
    as (w1 & Hr1 & Hs1).
  destruct (router_HTTPError main.DELETE_cart_id_item_itemID w r s _ _ s Hd Hw Hcode)
    as (w2 & Hr2 & Hs2).
  exists w1, w2. auto.
Qed.

End ItemHandlersFacts.

Lemma item_handlers_reject_bad_itemID_witness :
  let store : gmap string Cart := {[ "cart1" := fixtures.cart1 [fixtures.burger 1] ]} in
  let r := fixtures.request "cart1" "ten" "burger" in
  let overflow := fixtures.request "cart1" "18446744073709551616x" "burger" in
  handlers.CartHandler.UpdateItem (h_repository := repository.traced repositories.CartRepository)
      NewResponseWriter r (store, [])
    = (Some (NewHTTPError StatusBadRequest (strconv.syntaxError "Atoi" "ten")),
       NewResponseWriter, (store, []))
  /\ handlers.CartHandler.DeleteItem (h_repository := repository.traced repositories.CartRepository)
      NewResponseWriter r (store, [])
    = (Some (NewHTTPError StatusBadRequest (strconv.syntaxError "Atoi" "ten")),
       NewResponseWriter, (store, []))
  /\ handlers.CartHandler.UpdateItem (h_repository := repository.traced repositories.CartRepository)
      NewResponseWriter overflow (store, [])
    = (Some (NewHTTPError StatusBadRequest
               (strconv.rangeError "Atoi" "18446744073709551616x")),
       NewResponseWriter, (store, [])).
Proof.
  intros store r overflow.
  destruct (item_handlers_reject_bad_itemID
              (repo := repository.traced repositories.CartRepository)
              NewResponseWriter r (store, []) eq_refl)
    as (kind & _ & Ha & Hu & Hd & _).
  destruct (item_handlers_reject_bad_itemID
              (repo := repository.traced repositories.CartRepository)
              NewResponseWriter overflow (store, []) eq_refl)
    as (kind' & _ & Ha' & Hu' & _).
  assert (Hkind : kind = strconv.ErrSyntax).
  { change (@Err Z (strconv.syntaxError "Atoi" "ten")
            = Err (NumError "Atoi" "ten" kind)) in Ha.
    by injection Ha as <-. }
  assert (Hkind' : kind' = strconv.ErrRange).
  { change (@Err Z (strconv.rangeError "Atoi" "18446744073709551616x")
            = Err (NumError "Atoi" "18446744073709551616x" kind')) in Ha'.
    by injection Ha' as <-. }
  subst kind kind'.
  split; [exact Hu|]. split; [exact Hd | exact Hu'].
Defined.

(** *** Absent carts and items behind the item route *)

Section RepositoryErrors.
Context `{Codec} {R : Type} {repo : repository.GetCreateDeleter R}.
Implicit Types (w : ResponseWriter) (r : Request) (s : R).

(** Whatever error the repository returns from [UpdateItem], the handler
    wraps it with status 500. *)
Lemma UpdateItem_repository_error w r s itemID entity err s1 :
  strconv.Atoi (PathValue "itemID" r) = Ok itemID ->
  DecodeLineItem (Body r) = Ok entity ->
  repository.UpdateItem (PathValue "id" r) itemID entity s = (Some err, s1) ->
  handlers.CartHandler.UpdateItem w r s
    = (Some (NewHTTPError StatusInternalServerError err), w, s1).
Proof.
  intros Ha Hd Hr. unfold handlers.CartHandler.UpdateItem.
  by rewrite Ha, Hd, Hr.
Qed.

(** The sibling handlers [Get] and [Update] do map the sentinel to 404. *)
Lemma Get_not_found w r s err s1 :
  repository.Get (PathValue "id" r) s = (Err err, s1) ->
  Is err repositories.ErrCartNotFound = true ->
  handlers.CartHandler.Get w r s
    = (Some (NewHTTPError StatusNotFound
               (Wrap err ("cartID: " +:+ PathValue "id" r))), w, s1).
Proof.
  intros Hg His. unfold handlers.CartHandler.Get. by rewrite Hg, His.
Qed.

Lemma Update_not_found w r s req err s1 :
  DecodeUpdateCartReq (Body r) = Ok req ->
  repository.Get (PathValue "id" r) s = (Err err, s1) ->
  Is err repositories.ErrCartNotFound = true ->
  handlers.CartHandler.Update w r s
    = (Some (NewHTTPError StatusNotFound
               (Wrap err ("cartID: " +:+ PathValue "id" r))), w, s1).
Proof.
  intros Hd Hg His. unfold handlers.CartHandler.Update. by rewrite Hd, Hg, His.
Qed.

End RepositoryErrors.

(** C1.  On the store with no cart, and on a store whose cart1 has no item
    10, [PUT /cart/cart1/item/10] with a well-formed body ends in status
    500, the store's [NotFound] wrapped as an internal error; the sibling
    route [GET /cart/cart1] answers the same absence with 404. *)
Theorem UpdateItem_absent_is_500 :
  let r := fixtures.request "cart1" "10" "burger" in
  let with_cart : gmap string Cart := {[ "cart1" := fixtures.cart1 [] ]} in
  handlers.CartHandler.UpdateItem NewResponseWriter r (∅ : gmap string Cart)
    = (Some (NewHTTPError StatusInternalServerError repositories.ErrCartNotFound),
       NewResponseWriter, ∅)
  /\ (exists w1,
        main.router main.PUT_cart_id_item_itemID NewResponseWriter r
          (∅ : gmap string Cart) = (Some w1, ∅)
        /\ status w1 = Some 500)
  /\ handlers.CartHandler.UpdateItem NewResponseWriter r with_cart
    = (Some (NewHTTPError StatusInternalServerError repositories.ErrCartNotFound),
       NewResponseWriter, with_cart)
  /\ (exists w1,
        main.router main.PUT_cart_id_item_itemID NewResponseWriter r with_cart
          = (Some w1, with_cart)
        /\ status w1 = Some 500)
  /\ (exists w1,
        main.router main.GET_cart_id NewResponseWriter r (∅ : gmap string Cart)
          = (Some w1, ∅)
        /\ status w1 = Some 404).
Proof.
  intros r with_cart.
  assert (Hmiss : handlers.CartHandler.UpdateItem NewResponseWriter r
            (∅ : gmap string Cart)
          = (Some (NewHTTPError StatusInternalServerError
                     repositories.ErrCartNotFound), NewResponseWriter, ∅)).
  { by apply (UpdateItem_repository_error _ r _ 10 (fixtures.burger 1)). }
  assert (Hitem : handlers.CartHandler.UpdateItem NewResponseWriter r with_cart
          = (Some (NewHTTPError StatusInternalServerError
                     repositories.ErrCartNotFound), NewResponseWriter, with_cart)).
  { by apply (UpdateItem_repository_error _ r _ 10 (fixtures.burger 1)). }
  assert (Hget : handlers.CartHandler.Get NewResponseWriter r
            (∅ : gmap string Cart)
          = (Some (NewHTTPError StatusNotFound
                     (Wrap repositories.ErrCartNotFound
                        ("cartID: " +:+ PathValue "id" r))), NewResponseWriter, ∅)).
  { by apply Get_not_found. }
  split; [exact Hmiss|]. split.
  { apply (router_HTTPError main.PUT_cart_id_item_itemID _ _ _ _ _ _ Hmiss);
      [reflexivity | unfold StatusInternalServerError; lia]. }
  split; [exact Hitem|]. split.
  { apply (router_HTTPError main.PUT_cart_id_item_itemID _ _ _ _ _ _ Hitem);
      [reflexivity | unfold StatusInternalServerError; lia]. }
  apply (router_HTTPError main.GET_cart_id _ _ _ _ _ _ Hget);
    [reflexivity | unfold StatusNotFound; lia].
Qed.

(** *** Create and replace *)

(** C2, as stated, fails: on the store with no cart, [PUT /cart/cart1]
    with a well-formed body returns the 404 error and the store still has
    no cart1. *)
Lemma Update_absent_cart_is_not_created :
  let r := fixtures.request "cart1" "" "items" in
  handlers.CartHandler.Update NewResponseWriter r (∅ : gmap string Cart)
    = (Some (NewHTTPError StatusNotFound
               (Wrap repositories.ErrCartNotFound "cartID: cart1")),
       NewResponseWriter, ∅)
  /\ ~ (exists s1 : gmap string Cart,
          handlers.CartHandler.Update NewResponseWriter r (∅ : gmap string Cart)
            = (None, NewResponseWriter, s1)
          /\ is_Some (s1 !! "cart1")).
Proof.
  intros r.
  assert (Hrun : handlers.CartHandler.Update NewResponseWriter r
                   (∅ : gmap string Cart)
    = (Some (NewHTTPError StatusNotFound
               (Wrap repositories.ErrCartNotFound "cartID: cart1")),
       NewResponseWriter, ∅)).
  { by eapply (Update_not_found _ r). }
  split; [exact Hrun|]. intros (s1 & Hs1 & _). rewrite Hrun in Hs1. discriminate.
Qed.

Section CreateUpdateFacts.
Context `{Codec}.
Implicit Types (w : ResponseWriter) (r : Request) (s : gmap string Cart).

(** C2, amended.  On the cart store, the create entry point writes the
    mapped cart without looking for an existing one: whatever the store
    held, it ends with that cart filed under its id, and the call succeeds
    when the cart can be encoded.  The update entry point fetches the cart
    first: when the cart is absent it fails with 404 and leaves the store
    as it was, and when the cart is present it files the mapped cart under
    the mapped cart's id. *)
Theorem Create_upserts_Update_requires_cart w r s :
  (forall req, DecodeCreateCartReq (Body r) = Ok req ->
     let cart := MapCreateCartReqToCart req in
     snd (handlers.CartHandler.Create w r s) = <[ID cart := cart]> s
     /\ forall data, Marshal cart = Ok data ->
          fst (fst (handlers.CartHandler.Create w r s)) = None)
  /\ (forall req, DecodeUpdateCartReq (Body r) = Ok req ->
     (s !! PathValue "id" r = None ->
        handlers.CartHandler.Update w r s
          = (Some (NewHTTPError StatusNotFound
                     (Wrap repositories.ErrCartNotFound
                        ("cartID: " +:+ PathValue "id" r))), w, s))
     /\ (forall cart, s !! PathValue "id" r = Some cart ->
        let cartForUpdate := MapUpdateCartReqToCart cart req in
        handlers.CartHandler.Update w r s
          = (None, w, <[ID cartForUpdate := cartForUpdate]> s))).
Proof.
  split.
  - intros req Hd cart. unfold handlers.CartHandler.Create. rewrite Hd.
    fold cart. simpl. unfold repositories.Get.
    rewrite lookup_insert_eq. unfold handlers.Encode.
    destruct (Marshal cart) as [data|err]; simpl.
    + split; [reflexivity|]. reflexivity.
    + split; [reflexivity|]. discriminate.
  - intros req Hd. split.
    + intros Hnone. apply (Update_not_found w r s req); [exact Hd| |reflexivity].
      simpl. unfold repositories.Get. by rewrite Hnone.
    + intros cart Hsome cartForUpdate. unfold handlers.CartHandler.Update.
      rewrite Hd. simpl. unfold repositories.Get. rewrite Hsome. reflexivity.
Qed.

End CreateUpdateFacts.

Lemma Create_upserts_Update_requires_cart_witness :
  let create := fixtures.request "" "" "cart1" in
  let update := fixtures.request "cart1" "" "items" in
  let full : gmap string Cart := {[ "cart1" := fixtures.cart1 [fixtures.burger 1] ]} in
  snd (handlers.CartHandler.Create NewResponseWriter create (∅ : gmap string Cart))
    = {[ "cart1" := fixtures.cart1 [] ]}
  /\ snd (handlers.CartHandler.Create NewResponseWriter create full)
    = {[ "cart1" := fixtures.cart1 [] ]}
  /\ fst (fst (handlers.CartHandler.Create NewResponseWriter create full)) = None
  /\ handlers.CartHandler.Update NewResponseWriter update (∅ : gmap string Cart)
    = (Some (NewHTTPError StatusNotFound
               (Wrap repositories.ErrCartNotFound "cartID: cart1")),
       NewResponseWriter, ∅)
  /\ handlers.CartHandler.Update NewResponseWriter update full
    = (None, NewResponseWriter, {[ "cart1" := fixtures.cart1 [fixtures.burger 2] ]}).
Proof.
  intros create update full.
  destruct (Create_upserts_Update_requires_cart NewResponseWriter create ∅)
    as [Hc0 _].
  destruct (Create_upserts_Update_requires_cart NewResponseWriter create full)
    as [Hc1 _].
  destruct (Create_upserts_Update_requires_cart NewResponseWriter update ∅)
    as [_ Hu0].
  destruct (Create_upserts_Update_requires_cart NewResponseWriter update full)
    as [_ Hu1].
  destruct (Hc0 (fixtures.cart1 []) eq_refl) as [Hs0 _].
  destruct (Hc1 (fixtures.cart1 []) eq_refl) as [Hs1 Hok1].
  destruct (Hu0 [fixtures.burger 2] eq_refl) as [Hmiss _].
  destruct (Hu1 [fixtures.burger 2] eq_refl) as [_ Hhit].
  split; [rewrite Hs0; by vm_compute|].
  split; [rewrite Hs1; by vm_compute|].
  split; [exact (Hok1 "cart1" eq_refl)|].
  split; [exact (Hmiss eq_refl)|].
  rewrite (Hhit (fixtures.cart1 [fixtures.burger 1]) eq_refl). by vm_compute.
Defined.

(** ** Properties of the cart store *)

Section StoreFacts.
Import repositories.
Context `{Codec}.
Implicit Types (s : gmap string Cart) (items : list LineItem)
  (w : ResponseWriter) (r : Request).

Lemma store_wf_empty : store_wf ∅.
Proof. apply map_Forall_empty. Qed.

Lemma store_wf_lookup s cartID cart :
  store_wf s -> s !! cartID = Some cart -> ID cart = cartID.
Proof. intros Hwf Hl. exact (Hwf cartID cart Hl). Qed.

Lemma store_wf_Update s cart :
  store_wf s -> store_wf (snd (Update cart s)).
Proof. intros Hwf. simpl. by apply map_Forall_insert_2. Qed.

Lemma store_wf_Delete s id :
  store_wf s -> store_wf (snd (Delete id s)).
Proof. intros Hwf. simpl. by apply map_Forall_delete. Qed.

Lemma add_line_item_twice items itemID attrs a b :
  add_line_item
    (add_line_item items {| ItemID := itemID; Quantity := a; Attributes := attrs |})
    {| ItemID := itemID; Quantity := b; Attributes := attrs |}
  = add_line_item items
      {| ItemID := itemID; Quantity := a + b; Attributes := attrs |}.
Proof.
  induction items as [|y rest IH]; simpl.
  - rewrite decide_True by reflexivity. reflexivity.
  - destruct (decide (ItemID y = itemID)) as [Heq|Hne]; simpl.
    + rewrite decide_True by exact Heq. by rewrite Z.add_assoc.
    + rewrite decide_False by exact Hne. by rewrite IH.
Qed.

Lemma quantity_of_add_line_item items x :
  quantity_of (ItemID x) (add_line_item items x)
  = Some (from_option (fun q => q + Quantity x) (Quantity x)
            (quantity_of (ItemID x) items)).
Proof.
  induction items as [|y rest IH]; simpl.
  - by rewrite decide_True.
  - destruct (decide (ItemID y = ItemID x)) as [Heq|Hne]; simpl.
    + by rewrite decide_True.
    + by rewrite decide_False.
Qed.

Lemma add_line_item_other items x itemID :
  itemID <> ItemID x ->
  quantity_of itemID (add_line_item items x) = quantity_of itemID items.
Proof.
  intros Hne. induction items as [|y rest IH]; simpl.
  - by rewrite decide_False.
  - destruct (decide (ItemID y = ItemID x)) as [Heq|Hny]; simpl.
    + destruct (decide (ItemID y = itemID)); [congruence | reflexivity].
    + destruct (decide (ItemID y = itemID)); [reflexivity | exact IH].
Qed.

Lemma add_line_item_new items x :
  quantity_of (ItemID x) items = None -> add_line_item items x = items ++ [x].
Proof.
  induction items as [|y rest IH]; simpl; [reflexivity|].
  destruct (decide (ItemID y = ItemID x)); [discriminate|].
  intros Hq. by rewrite IH.
Qed.

Lemma AddItem_present s cartID cart item :
  store_wf s -> s !! cartID = Some cart ->
  AddItem cartID item s
  = (None, <[cartID := with_items cart (add_line_item (LineItems cart) item)]> s).
Proof.
  intros Hwf Hl. unfold AddItem, Get. rewrite Hl. unfold Update. simpl.
  by rewrite (store_wf_lookup s cartID cart Hwf Hl).
Qed.

Lemma store_wf_AddItem s cartID item :
  store_wf s -> store_wf (snd (AddItem cartID item s)).
Proof.
  intros Hwf. unfold AddItem, Get.
  destruct (s !! cartID) as [cart|] eqn:Hl; [|exact Hwf].
  by apply store_wf_Update.
Qed.

(** The handler of [POST /cart/{id}/item] hands the decoded item to the
    repository and succeeds when the repository does. *)
Lemma AddItem_handler_present w r s cart item :
  store_wf s -> s !! PathValue "id" r = Some cart ->
  DecodeLineItem (Body r) = Ok item ->
  handlers.CartHandler.AddItem w r s
  = (None, w, snd (AddItem (PathValue "id" r) item s)).
Proof.
  intros Hwf Hl Hd. unfold handlers.CartHandler.AddItem. rewrite Hd. simpl.
  by rewrite (AddItem_present s _ cart item Hwf Hl).
Qed.

(** C3.  On a cart of the store and an item X: adding X with quantity [a]
    and then with quantity [b] succeeds and leaves the same store as adding
    X once with quantity [a + b].  In that store the quantity of X is the
    quantity the cart had of X plus [a + b]; when the cart had no entry
    with the id of X, its line items are the old ones followed by X as
    requested.  A request to [POST /cart/{id}/item] whose body decodes to X
    ends in the store that adding X gives, with no error. *)
Theorem AddItem_sums_quantities s cartID cart itemID attrs a b :
  store_wf s -> s !! cartID = Some cart ->
  let X q := {| ItemID := itemID; Quantity := q; Attributes := attrs |} in
  exists s1 s2 cart1 cart2,
    AddItem cartID (X a) s = (None, s1)
    /\ AddItem cartID (X b) s1 = (None, s2)
    /\ AddItem cartID (X (a + b)) s = (None, s2)
    /\ s1 !! cartID = Some cart1
    /\ quantity_of itemID (LineItems cart1)
       = Some (from_option (fun q => q + a) a (quantity_of itemID (LineItems cart)))
    /\ s2 !! cartID = Some cart2
    /\ quantity_of itemID (LineItems cart2)
       = Some (from_option (fun q => q + (a + b)) (a + b)
                 (quantity_of itemID (LineItems cart)))
    /\ (quantity_of itemID (LineItems cart) = None ->
        LineItems cart1 = LineItems cart ++ [X a]
        /\ LineItems cart2 = LineItems cart ++ [X (a + b)])
    /\ (forall w r, PathValue "id" r = cartID ->
        DecodeLineItem (Body r) = Ok (X a) ->
        handlers.CartHandler.AddItem w r s = (None, w, s1)).
Proof.
  intros Hwf Hl X.
  set (cart1 := with_items cart (add_line_item (LineItems cart) (X a))).
  set (cart2 := with_items cart (add_line_item (LineItems cart) (X (a + b)))).
  exists (<[cartID := cart1]> s), (<[cartID := cart2]> s), cart1, cart2.
  assert (Hwf1 : store_wf (<[cartID := cart1]> s)).
  { apply map_Forall_insert_2; [|exact Hwf]. simpl.
    exact (store_wf_lookup s cartID cart Hwf Hl). }
  split; [by apply AddItem_present|].
  split.
  { rewrite (AddItem_present _ cartID cart1 _ Hwf1) by apply lookup_insert_eq.
    rewrite insert_insert_eq. unfold cart1, cart2, with_items. simpl.
    unfold X. by rewrite add_line_item_twice. }
  split; [by apply AddItem_present|].
  split; [apply lookup_insert_eq|].
  split; [exact (quantity_of_add_line_item (LineItems cart) (X a))|].
  split; [apply lookup_insert_eq|].
  split; [exact (quantity_of_add_line_item (LineItems cart) (X (a + b)))|].
  split; [intros Hnew; split; simpl; by apply add_line_item_new|].
  intros w r Hid Hd. subst cartID.
  rewrite (AddItem_handler_present w r s cart (X a) Hwf Hl Hd).
  by rewrite (AddItem_present s _ cart (X a) Hwf Hl).
Qed.

End StoreFacts.

Lemma AddItem_sums_quantities_witness :
  let s : gmap string Cart := {[ "cart1" := fixtures.cart1 [] ]} in
  exists s1 s2,
    repositories.AddItem "cart1" (fixtures.burger 2) s = (None, s1)
    /\ repositories.AddItem "cart1" (fixtures.burger 3) s1 = (None, s2)
    /\ repositories.AddItem "cart1" (fixtures.burger 5) s = (None, s2)
    /\ s2 !! "cart1" = Some (fixtures.cart1 [fixtures.burger 5]).
Proof.
  intros s.
  assert (Hwf : repositories.store_wf s).
  { apply map_Forall_singleton. reflexivity. }
  destruct (AddItem_sums_quantities s "cart1" (fixtures.cart1 []) 10 "burger" 2 3
              Hwf eq_refl)
    as (s1 & s2 & cart1 & cart2 & H1 & H2 & H3 & _ & _ & Hl2 & _ & Hnew & _).
  exists s1, s2. split; [exact H1|]. split; [exact H2|]. split; [exact H3|].
  destruct (Hnew eq_refl) as [_ Hitems].
  rewrite Hl2. f_equal.
  change (2 + 3) with 5 in H3.
  pose proof (AddItem_present s "cart1" (fixtures.cart1 []) (fixtures.burger 5)
                Hwf eq_refl) as H3'.
  unfold fixtures.burger in H3' at 1. rewrite H3 in H3'.
  injection H3' as ->. rewrite lookup_insert_eq in Hl2. by injection Hl2 as <-.
Defined.

(** ** The order-completion handler on the cart store *)

Section CompletionFacts.
Import repositories.
Implicit Types (s : gmap string Cart).

Lemma handle_absent how event s :
  s !! events.cart_id event = None -> events.handle how event s = (None, s).
Proof.
  intros Hl. unfold events.handle. simpl. unfold Get. by rewrite Hl.
Qed.

Lemma handle_present how event s cart :
  store_wf s -> s !! events.cart_id event = Some cart ->
  events.handle how event s
  = (None, match how with
           | events.EmptyItems => <[events.cart_id event := with_items cart []]> s
           | events.DeleteCart => delete (events.cart_id event) s
           end).
Proof.
  intros Hwf Hl. unfold events.handle. simpl. unfold Get. rewrite Hl.
  destruct how; simpl; [|reflexivity].
  unfold Update. simpl. by rewrite (store_wf_lookup s _ cart Hwf Hl).
Qed.

Lemma store_wf_handle how event s :
  store_wf s -> store_wf (snd (events.handle how event s)).
Proof.
  intros Hwf. destruct (s !! events.cart_id event) as [cart|] eqn:Hl.
  - rewrite (handle_present how event s cart Hwf Hl). destruct how; simpl.
    + apply map_Forall_insert_2; [|exact Hwf]. simpl.
      exact (store_wf_lookup s _ cart Hwf Hl).
    + by apply map_Forall_delete.
  - by rewrite handle_absent.
Qed.

(** C4.  On the cart store, under either way of clearing: handling a
    completion event succeeds and leaves the cart of the event cleared;
    handling the same event again succeeds and leaves that very store;
    the other carts are never touched; and on a store where the cart is
    cleared already, in particular where it is absent, handling succeeds
    and changes nothing. *)
Theorem order_completion_idempotent how event s :
  store_wf s ->
  exists s1,
    events.handle how event s = (None, s1)
    /\ events.handle how event s1 = (None, s1)
    /\ events.cleared how (events.cart_id event) s1
    /\ (forall k, k <> events.cart_id event -> s1 !! k = s !! k)
    /\ (events.cleared how (events.cart_id event) s -> s1 = s)
    /\ (s !! events.cart_id event = None -> s1 = s).
Proof.
  intros Hwf. set (cid := events.cart_id event).
  destruct (s !! cid) as [cart|] eqn:Hl.
  - destruct how.
    + exists (<[cid := with_items cart []]> s).
      assert (Hwf1 : store_wf (<[cid := with_items cart []]> s)).
      { apply map_Forall_insert_2; [|exact Hwf]. simpl.
        exact (store_wf_lookup s _ cart Hwf Hl). }
      split; [exact (handle_present events.EmptyItems event s cart Hwf Hl)|].
      split.
      { rewrite (handle_present events.EmptyItems event _ (with_items cart []) Hwf1)
          by apply lookup_insert_eq.
        fold cid. by rewrite insert_insert_eq. }
      split; [unfold events.cleared; by rewrite lookup_insert_eq|].
      split; [intros k Hk; by rewrite lookup_insert_ne|].
      split; [|discriminate].
      unfold events.cleared. rewrite Hl. simpl. intros Hempty. apply insert_id.
      rewrite Hl. f_equal. destruct cart as [id items meta]. simpl in *.
      by subst items.
    + exists (delete cid s).
      split; [exact (handle_present events.DeleteCart event s cart Hwf Hl)|].
      split; [apply handle_absent; apply lookup_delete_eq|].
      split; [apply lookup_delete_eq|].
      split; [intros k Hk; by rewrite lookup_delete_ne|].
      split; [|discriminate].
      unfold events.cleared. rewrite Hl. discriminate.
  - exists s.
    split; [by apply handle_absent|]. split; [by apply handle_absent|].
    split; [destruct how; unfold events.cleared; by rewrite Hl|].
    split; [reflexivity|]. split; reflexivity.
Qed.

End CompletionFacts.

Lemma order_completion_idempotent_witness :
  let s : gmap string Cart := {[ "cart1" := fixtures.cart1 [fixtures.burger 5] ]} in
  let event := {| events.order_id := "order1"; events.cart_id := "cart1" |} in
  exists s1,
    events.handle events.EmptyItems event s = (None, s1)
    /\ events.handle events.EmptyItems event s1 = (None, s1)
    /\ s1 !! "cart1" = Some (fixtures.cart1 []).
Proof.
  intros s event.
  assert (Hwf : repositories.store_wf s).
  { apply map_Forall_singleton. reflexivity. }
  destruct (order_completion_idempotent events.EmptyItems event s Hwf)
    as (s1 & H1 & H2 & _).
  exists s1. split; [exact H1|]. split; [exact H2|].
  pose proof (handle_present events.EmptyItems event s
                (fixtures.cart1 [fixtures.burger 5]) Hwf eq_refl) as H1'.
  rewrite H1 in H1'. injection H1' as ->. apply lookup_insert_eq.
Defined.

(** ** Properties of the consumer *)

Section ClaimFacts.
Import reciever context.
Context {H : Type} {c_handler : MessageHandler H}.
Implicit Types (h : H) (events : list SelectEvent)
  (messages : list sarama.ConsumerMessage).

(** The effects of the loop body on one message. *)
Lemma on_message_effects message h :
  on_message message h
  = (snd (Handle Background (to_Message message) h),
     [LogDebug (sarama.Topic message) (sarama.Timestamp message)
        (sarama.Value message) "message claimed";
      CallHandle Background (to_Message message)]
     ++ from_option
          (fun err => [LogError err (sarama.Topic message)
                         "failed to consume message"])
          [] (fst (Handle Background (to_Message message) h))
     ++ [MarkMessage message ""]).
Proof.
  unfold on_message, to_Message.
  destruct (Handle Background _ h) as [[err|] h1]; reflexivity.
Qed.

Lemma on_message_observed message h :
  handled (snd (on_message message h)) = [to_Message message]
  /\ marked (snd (on_message message h)) = [(message, "")]
  /\ handle_contexts (snd (on_message message h)) = [Background]
  /\ logged_errors (snd (on_message message h))
     = option_list (fst (Handle Background (to_Message message) h)).
Proof.
  rewrite on_message_effects.
  destruct (fst (Handle Background (to_Message message) h)); simpl; auto.
Qed.

(** The loop is the loop body folded over the messages that arrive before
    the channel closes or the session is done, followed by its ending. *)
Lemma ConsumeClaim_fold events h :
  ConsumeClaim events h
  = (fst (ending events),
     fst (on_messages (received events) h),
     snd (on_messages (received events) h) ++ snd (ending events)).
Proof.
  revert h. induction events as [|[message| |] rest IH]; intros h; simpl;
    try reflexivity.
  destruct (on_message message h) as [h1 effs]. rewrite IH.
  destruct (on_messages (received rest) h1) as [h2 effs']. simpl.
  by rewrite app_assoc.
Qed.

Lemma received_messages messages events :
  received ((Recv <$> messages) ++ events) = messages ++ received events.
Proof.
  induction messages as [|m rest IH]; simpl; [reflexivity|].
  f_equal. exact IH.
Qed.

Lemma ending_messages messages events :
  ending ((Recv <$> messages) ++ events) = ending events.
Proof. induction messages as [|m rest IH]; simpl; [reflexivity | exact IH]. Qed.

Lemma on_messages_cons m messages h :
  on_messages (m :: messages) h
  = (fst (on_messages messages (fst (on_message m h))),
     snd (on_message m h) ++ snd (on_messages messages (fst (on_message m h)))).
Proof.
  simpl. destruct (on_message m h) as [h1 effs]. cbn [fst snd].
  by destruct (on_messages messages h1).
Qed.

Lemma handle_all_cons m messages h :
  handle_all (m :: messages) h
  = (fst (Handle Background (to_Message m) h)
       :: fst (handle_all messages (snd (Handle Background (to_Message m) h))),
     snd (handle_all messages (snd (Handle Background (to_Message m) h)))).
Proof.
  simpl. destruct (Handle Background (to_Message m) h) as [err h1]. cbn [fst snd].
  by destruct (handle_all messages h1).
Qed.

Lemma on_messages_observed messages h :
  handled (snd (on_messages messages h)) = to_Message <$> messages
  /\ marked (snd (on_messages messages h)) = (fun m => (m, "")) <$> messages
  /\ handle_contexts (snd (on_messages messages h))
     = replicate (length messages) Background
  /\ logged_errors (snd (on_messages messages h))
     = omap id (fst (handle_all messages h))
  /\ fst (on_messages messages h) = snd (handle_all messages h).
Proof.
  revert h. induction messages as [|m rest IH]; intros h; [simpl; auto|].
  rewrite on_messages_cons, handle_all_cons.
  destruct (on_message_observed m h) as (Hh & Hm & Hc & He).
  assert (Hst : fst (on_message m h) = snd (Handle Background (to_Message m) h))
    by (by rewrite on_message_effects).
  destruct (IH (fst (on_message m h))) as (IHh & IHm & IHc & IHe & IHs).
  cbn [fst snd].
  unfold handled, marked, handle_contexts, logged_errors in *.
  rewrite !omap_app, Hh, Hm, Hc, He, IHh, IHm, IHc, IHe, IHs, Hst.
  repeat split.
  destruct (fst (Handle Background (to_Message m) h)); reflexivity.
Qed.

Lemma ending_observed events :
  handled (snd (ending events)) = []
  /\ marked (snd (ending events)) = []
  /\ handle_contexts (snd (ending events)) = []
  /\ logged_errors (snd (ending events)) = [].
Proof. induction events as [|[m| |] rest IH]; simpl; auto. Qed.

Lemma ending_never_fails events err :
  fst (ending events) <> Returned (Some err).
Proof.
  induction events as [|[m| |] rest IH]; simpl; [discriminate|exact IH|..];
    discriminate.
Qed.

(** C5.  Whatever the handler returns for a message, the loop marks the
    message, with the same call as on success, and goes on with the next
    event on the handler state left; an error is logged in between.  Over a
    whole claim every message that arrives is handed to the handler once
    and marked once, in the order of arrival, the errors logged are those
    the handler returned, and the loop ends as its events end, never with
    an error.  The offsets marked are committed automatically, every
    second. *)
Theorem handler_error_is_not_fatal message events h :
  ConsumeClaim (Recv message :: events) h
  = (fst (fst (ConsumeClaim events (snd (Handle Background (to_Message message) h)))),
     snd (fst (ConsumeClaim events (snd (Handle Background (to_Message message) h)))),
     [LogDebug (sarama.Topic message) (sarama.Timestamp message)
        (sarama.Value message) "message claimed";
      CallHandle Background (to_Message message)]
     ++ from_option
          (fun err => [LogError err (sarama.Topic message)
                         "failed to consume message"])
          [] (fst (Handle Background (to_Message message) h))
     ++ [MarkMessage message ""]
     ++ snd (ConsumeClaim events (snd (Handle Background (to_Message message) h))))
  /\ handled (snd (ConsumeClaim events h)) = to_Message <$> received events
  /\ marked (snd (ConsumeClaim events h))
     = (fun m => (m, "")) <$> received events
  /\ logged_errors (snd (ConsumeClaim events h))
     = omap id (fst (handle_all (received events) h))
  /\ fst (fst (ConsumeClaim events h)) = fst (ending events)
  /\ (forall err, fst (ending events) <> Returned (Some err))
  /\ sarama.Consumer_Offsets_AutoCommit_Enable main.config = true
  /\ sarama.Consumer_Offsets_AutoCommit_Interval main.config = main.Second.
Proof.
  split.
  { simpl. rewrite on_message_effects.
    destruct (ConsumeClaim events _) as [[out h2] effs']. simpl.
    by rewrite <- !app_assoc. }
  rewrite ConsumeClaim_fold. simpl.
  destruct (on_messages_observed (received events) h) as (Hh & Hm & _ & He & _).
  destruct (ending_observed events) as (Eh & Em & _ & Ee).
  unfold handled, marked, logged_errors in *.
  rewrite !omap_app, Hh, Hm, He, Eh, Em, Ee, !app_nil_r.
  pose proof (ending_never_fails events) as Hend.
  repeat split; auto.
Qed.

(** When the session context is done after some messages have arrived,
    the loop returns only at the next [select]. *)
Lemma ConsumeClaim_done_after messages events h :
  ConsumeClaim ((Recv <$> messages) ++ CtxDone :: events) h
  = (Returned None, fst (on_messages messages h), snd (on_messages messages h)).
Proof.
  rewrite ConsumeClaim_fold, received_messages, ending_messages. simpl.
  by rewrite !app_nil_r.
Qed.

End ClaimFacts.

Section SessionFacts.
Import reciever context.
Context {H : Type} {c_handler : MessageHandler H}.
Implicit Types (h : H) (s : Session (H := H)) (effs : list Effect)
  (feeds : list (list SelectEvent)).

Lemma handled_by_app i (l1 l2 : list (nat * Effect)) :
  handled_by i (l1 ++ l2) = handled_by i l1 ++ handled_by i l2.
Proof. unfold handled_by, handled. by rewrite filter_app, fmap_app, omap_app. Qed.

Lemma handled_by_tagged i j effs :
  handled_by i (pair j <$> effs) = if decide (j = i) then handled effs else [].
Proof.
  unfold handled_by. destruct (decide (j = i)) as [Heq|Hne].
  - induction effs as [|e rest IH]; [reflexivity|].
    rewrite fmap_cons, filter_cons_True by exact Heq.
    rewrite fmap_cons. unfold handled in *. cbn [omap list_omap snd].
    by rewrite IH.
  - induction effs as [|e rest IH]; [reflexivity|].
    by rewrite fmap_cons, filter_cons_False by exact Hne.
Qed.

Lemma handled_in_session_tagged i message h :
  handled_in_session (pair i <$> snd (on_message message h))
  = [(i, to_Message message)].
Proof.
  rewrite on_message_effects. simpl.
  by destruct (fst (Handle Background (to_Message message) h)).
Qed.

(** What claim [i] has handed over plus what is still to come on its
    channel never changes, whichever claim moves. *)
Lemma session_step_history s s' i :
  session_step s s' ->
  handled_by i (effects s') ++ still_to_come (claims s' !! i)
  = handled_by i (effects s) ++ still_to_come (claims s !! i).
Proof.
  intros Hstep. destruct Hstep as [s j message rest Hj|s j rest Hj|s j rest Hj];
    simpl.
  - rewrite handled_by_app, handled_by_tagged.
    destruct (decide (j = i)) as [->|Hne].
    + rewrite list_lookup_insert_eq by (by eapply lookup_lt_Some).
      rewrite Hj. destruct (on_message_observed message (handler_state s)) as [-> _].
      simpl. by rewrite <- app_assoc.
    + rewrite list_lookup_insert_ne by exact Hne. by rewrite app_nil_r.
  - rewrite handled_by_app.
    change [(j, LogInfo "message channel was closed")]
      with (pair j <$> [LogInfo "message channel was closed"]).
    rewrite handled_by_tagged.
    destruct (decide (j = i)) as [->|Hne].
    + rewrite list_lookup_insert_eq by (by eapply lookup_lt_Some).
      rewrite Hj. simpl. by rewrite !app_nil_r.
    + rewrite list_lookup_insert_ne by exact Hne. by rewrite app_nil_r.
  - destruct (decide (j = i)) as [->|Hne].
    + rewrite list_lookup_insert_eq by (by eapply lookup_lt_Some).
      rewrite Hj. reflexivity.
    + by rewrite list_lookup_insert_ne by exact Hne.
Qed.

Lemma session_history feeds h s i :
  rtc session_step (start feeds h) s ->
  handled_by i (effects s) ++ still_to_come (claims s !! i)
  = to_Message <$> from_option received [] (feeds !! i).
Proof.
  intros Hrun. revert s Hrun. apply rtc_ind_r.
  - simpl. rewrite list_lookup_fmap. by destruct (feeds !! i).
  - intros s1 s2 _ Hstep IH. by rewrite (session_step_history s1 s2 i Hstep).
Qed.

(** Two claims with one message each: either message can be handled
    first. *)
Lemma session_either_order a b h :
  exists s1 s2,
    rtc session_step (start [[Recv a]; [Recv b]] h) s1
    /\ rtc session_step (start [[Recv a]; [Recv b]] h) s2
    /\ handled_in_session (effects s1)
       = [(0%nat, to_Message a); (1%nat, to_Message b)]
    /\ handled_in_session (effects s2)
       = [(1%nat, to_Message b); (0%nat, to_Message a)].
Proof.
  eexists. eexists. split; [|split].
  - eapply rtc_l; [eapply (step_message _ 0%nat); reflexivity|].
    eapply rtc_l; [eapply (step_message _ 1%nat); reflexivity|].
    apply rtc_refl.
  - eapply rtc_l; [eapply (step_message _ 1%nat); reflexivity|].
    eapply rtc_l; [eapply (step_message _ 0%nat); reflexivity|].
    apply rtc_refl.
  - cbn [effects start handler_state app].
    unfold handled_in_session.
    rewrite !omap_app.
    fold (handled_in_session (pair 0%nat <$> snd (on_message a h))).
    fold (handled_in_session
            (pair 1%nat <$> snd (on_message b (fst (on_message a h))))).
    fold (handled_in_session (pair 1%nat <$> snd (on_message b h))).
    fold (handled_in_session
            (pair 0%nat <$> snd (on_message a (fst (on_message b h))))).
    by rewrite !handled_in_session_tagged.
Qed.

(** C6.  A claim hands the messages of its channel to the handler one
    after the other, in the order they arrive, each call made inside the
    loop and each on the handler state the previous call left; every
    message is marked before the next one is taken.  In a session with
    several claims this order holds for each claim, whichever claim moves
    when; across two claims either order can occur. *)
Theorem claim_messages_in_order :
  (forall events h,
     ConsumeClaim events h
     = (fst (ending events),
        fst (on_messages (received events) h),
        snd (on_messages (received events) h) ++ snd (ending events))
     /\ handled (snd (ConsumeClaim events h)) = to_Message <$> received events
     /\ marked (snd (ConsumeClaim events h))
        = (fun m => (m, "")) <$> received events
     /\ snd (fst (ConsumeClaim events h)) = snd (handle_all (received events) h))
  /\ (forall feeds h s i,
     rtc session_step (start feeds h) s ->
     handled_by i (effects s) ++ still_to_come (claims s !! i)
     = to_Message <$> from_option received [] (feeds !! i))
  /\ (forall a b h,
     exists s1 s2,
       rtc session_step (start [[Recv a]; [Recv b]] h) s1
       /\ rtc session_step (start [[Recv a]; [Recv b]] h) s2
       /\ handled_in_session (effects s1)
          = [(0%nat, to_Message a); (1%nat, to_Message b)]
       /\ handled_in_session (effects s2)
          = [(1%nat, to_Message b); (0%nat, to_Message a)]).
Proof.
  split; [|split].
  - intros events h. split; [apply ConsumeClaim_fold|].
    rewrite ConsumeClaim_fold. cbn [fst snd].
    destruct (on_messages_observed (received events) h) as (Hh & Hm & _ & _ & Hs).
    destruct (ending_observed events) as (Eh & Em & _).
    unfold handled, marked in *.
    by rewrite !omap_app, Hh, Hm, Eh, Em, !app_nil_r, Hs.
  - intros feeds h s i. apply session_history.
  - apply session_either_order.
Qed.

End SessionFacts.

Lemma handler_error_is_not_fatal_witness :
  let bad := fixtures.message 0 7 "bad" in
  let good := fixtures.message 0 8 "good" in
  reciever.ConsumeClaim [reciever.Recv bad; reciever.Recv good] ([] : list string)
  = (reciever.Waiting, ["bad"; "good"],
     [reciever.LogDebug "orders" 0 "bad" "message claimed";
      reciever.CallHandle context.Background (reciever.to_Message bad);
      reciever.LogError (New "bad payload") "orders" "failed to consume message";
      reciever.MarkMessage bad "";
      reciever.LogDebug "orders" 0 "good" "message claimed";
      reciever.CallHandle context.Background (reciever.to_Message good);
      reciever.MarkMessage good ""]).
Proof.
  intros bad good.
  exact (proj1 (handler_error_is_not_fatal bad [reciever.Recv good] ([] : list string))).
Defined.

Lemma claim_messages_in_order_witness :
  let m1 := fixtures.message 0 1 "first" in
  let m2 := fixtures.message 0 2 "second" in
  let m3 := fixtures.message 1 1 "other" in
  let feeds := [[reciever.Recv m1; reciever.Recv m2]; [reciever.Recv m3]] in
  let h0 : list string := [] in
  exists s : reciever.Session (H := list string),
    rtc reciever.session_step (reciever.start feeds h0) s
    /\ reciever.handled_by 0%nat (reciever.effects s) = [reciever.to_Message m1]
    /\ reciever.handled_by 0%nat (reciever.effects s)
         ++ reciever.still_to_come (reciever.claims s !! 0%nat)
       = [reciever.to_Message m1; reciever.to_Message m2].
Proof.
  intros m1 m2 m3 feeds h0.
  assert (Hrun : rtc reciever.session_step (reciever.start feeds h0)
            {| reciever.claims :=
                 <[0%nat := reciever.Running [reciever.Recv m2]]>
                   (reciever.claims (reciever.start feeds h0));
               reciever.handler_state :=
                 fst (reciever.on_message m1 h0);
               reciever.effects :=
                 reciever.effects (reciever.start feeds h0)
                 ++ (pair 0%nat <$> snd (reciever.on_message m1 h0)) |}).
  { apply rtc_once.
    by apply (reciever.step_message (reciever.start feeds h0) 0%nat m1). }
  eexists. split; [exact Hrun|]. split; [reflexivity|].
  exact (proj1 (proj2 claim_messages_in_order) feeds h0 _ 0%nat Hrun).
Defined.

Section RecieveFacts.
Import reciever context.
Implicit Types (k : MessageReciever) (ctx : Context) (rounds : list Round).

Lemma Recieve_stops k ctx rounds r rest :
  Forall quiet rounds ->
  consume_err r <> None \/ ctx_err r <> None ->
  Recieve k ctx (rounds ++ r :: rest)
  = (Returned (consume_err r),
     replicate (S (length rounds)) {| call_ctx := ctx; call_topics := [topic k] |}).
Proof.
  intros Hquiet Hstop. induction Hquiet as [|q rounds [Hc He] _ IH]; simpl.
  - destruct (consume_err r) as [err|]; [reflexivity|].
    destruct (ctx_err r); [reflexivity|]. by destruct Hstop.
  - by rewrite Hc, He, IH.
Qed.

Lemma Recieve_goes_on k ctx rounds :
  Forall quiet rounds ->
  Recieve k ctx rounds
  = (Waiting,
     replicate (S (length rounds)) {| call_ctx := ctx; call_topics := [topic k] |}).
Proof.
  intros Hquiet. induction Hquiet as [|q rounds [Hc He] _ IH]; simpl;
    [reflexivity|]. by rewrite Hc, He, IH.
Qed.

(** C7.  Let the loop of [Recieve] have gone round some times with
    [Consume] returning [nil] and the context not cancelled.  If the
    context is found cancelled after the next [Consume] call, [Recieve]
    returns what that call returned and has called [Consume] once per
    round up to this one, whatever rounds the environment had in store
    after it.  If that call returns an error, [Recieve] returns this error.
    Inside a claim, a session context that is done after some messages
    have arrived ends the loop only once each of them has been handled and
    marked, and the handler is always called with the background context,
    which cannot be cancelled. *)
Theorem Recieve_stops_when_cancelled k ctx rounds r rest :
  Forall quiet rounds ->
  (ctx_err r <> None ->
     Recieve k ctx (rounds ++ r :: rest)
     = (Returned (consume_err r),
        replicate (S (length rounds))
          {| call_ctx := ctx; call_topics := [topic k] |}))
  /\ (forall err, consume_err r = Some err ->
     Recieve k ctx (rounds ++ r :: rest)
     = (Returned (Some err),
        replicate (S (length rounds))
          {| call_ctx := ctx; call_topics := [topic k] |}))
  /\ (forall (H : Type) (c_handler : MessageHandler H) messages events (h : H),
     ConsumeClaim ((Recv <$> messages) ++ CtxDone :: events) h
     = (Returned None, fst (on_messages messages h), snd (on_messages messages h))
     /\ handled (snd (on_messages messages h)) = to_Message <$> messages
     /\ marked (snd (on_messages messages h)) = (fun m => (m, "")) <$> messages
     /\ handle_contexts (snd (on_messages messages h))
        = replicate (length messages) Background
     /\ cancellable Background = false).
Proof.
  intros Hquiet. split; [|split].
  - intros Hctx. apply Recieve_stops; auto.
  - intros err Herr. rewrite <- Herr. apply Recieve_stops; [exact Hquiet|].
    left. by rewrite Herr.
  - intros H c_handler messages events h.
    split; [apply ConsumeClaim_done_after|].
    destruct (on_messages_observed messages h) as (Hh & Hm & Hc & _).
    auto.
Qed.

End RecieveFacts.

Lemma Recieve_stops_when_cancelled_witness :
  let k := {| reciever.topic := "orders" |} in
  let ctx := context.WithCancel 1 in
  let call := {| reciever.call_ctx := ctx; reciever.call_topics := ["orders"] |} in
  reciever.Recieve k ctx
    [fixtures.quiet_round; fixtures.cancelled_round; fixtures.quiet_round]
  = (reciever.Returned None, [call; call])
  /\ reciever.Recieve k ctx
    [fixtures.quiet_round; fixtures.failed_round; fixtures.quiet_round]
  = (reciever.Returned
       (Some (New "kafka: client has run out of available brokers")),
     [call; call]).
Proof.
  intros k ctx call.
  assert (Hquiet : Forall reciever.quiet [fixtures.quiet_round]).
  { repeat constructor. }
  split.
  - apply (proj1 (Recieve_stops_when_cancelled k ctx [fixtures.quiet_round]
                    fixtures.cancelled_round [fixtures.quiet_round] Hquiet)).
    discriminate.
  - apply (proj1 (proj2 (Recieve_stops_when_cancelled k ctx [fixtures.quiet_round]
                    fixtures.failed_round [fixtures.quiet_round] Hquiet))).
    reflexivity.
Defined.

(** ** The checkout event handler of order-api *)

Section CheckoutFacts.
Import order_api.
Context {S : Type} {checkout : CheckoutService S}.

(** C8.  [Handle] settles a message exactly once: with an acknowledgment
    when, and only when, the checkout call returns without throwing, and
    with a negative acknowledgment carrying the exception when, and only
    when, the call throws it. *)
Theorem Handle_acks_or_nacks (message : Message) (s : S) :
  let outcome := fst (Checkout (getPayload message) s) in
  let settled := settlements (fst (fst (Handle message s))) in
  (outcome = None <-> settled = settlements message ++ [Ack])
  /\ (forall e, outcome = Some e <-> settled = settlements message ++ [Nack e])
  /\ length settled = Datatypes.S (length (settlements message))
  /\ (settled = settlements message ++ [Ack]
      \/ exists e, settled = settlements message ++ [Nack e])
  /\ snd (fst (Handle message s)) = snd (Checkout (getPayload message) s).
Proof.
  unfold Handle. destruct (Checkout (getPayload message) s) as [[e|] s1]; simpl.
  - split; [split; [discriminate|]|].
    { intros Heq. apply app_inv_head in Heq. discriminate. }
    split.
    { intros e'. split; [by intros [= ->]|].
      intros Heq. apply app_inv_head in Heq. by injection Heq as ->. }
    split; [rewrite length_app; simpl; lia|].
    split; [right; by exists e | reflexivity].
  - split; [by split|].
    split.
    { intros e'. split; [discriminate|].
      intros Heq. apply app_inv_head in Heq. discriminate. }
    split; [rewrite length_app; simpl; lia|].
    split; [by left | reflexivity].
Qed.

End CheckoutFacts.

Lemma Handle_acks_or_nacks_witness :
  let good := {| order_api.getPayload := {| order_api.event_text := "good" |};
                 order_api.settlements := [] |} in
  let bad := {| order_api.getPayload := {| order_api.event_text := "bad" |};
                order_api.settlements := [] |} in
  order_api.settlements (fst (fst (order_api.Handle good 0%nat))) = [order_api.Ack]
  /\ order_api.settlements (fst (fst (order_api.Handle bad 0%nat)))
     = [order_api.Nack {| order_api.getMessage := "checkout failed" |}].
Proof.
  intros good bad. split.
  - apply (proj1 (Handle_acks_or_nacks good 0%nat)). reflexivity.
  - apply (proj1 (proj2 (Handle_acks_or_nacks bad 0%nat))). reflexivity.
Defined.

(** ** Worked examples *)

Example Atoi_10 : strconv.Atoi "10" = Ok 10.
Proof. reflexivity. Qed.

Example Atoi_minus_5 : strconv.Atoi "-5" = Ok (-5).
Proof. reflexivity. Qed.

Example Atoi_plus_7 : strconv.Atoi "+7" = Ok 7.
Proof. reflexivity. Qed.

Example Atoi_empty : strconv.Atoi "" = Err (strconv.syntaxError "Atoi" "").
Proof. reflexivity. Qed.

Example Atoi_sign_only : strconv.Atoi "-" = Err (strconv.syntaxError "Atoi" "-").
Proof. reflexivity. Qed.

Example Atoi_underscore : strconv.Atoi "1_0" = Err (strconv.syntaxError "Atoi" "1_0").
Proof. reflexivity. Qed.

Example Atoi_max : strconv.Atoi "9223372036854775807" = Ok 9223372036854775807.
Proof. reflexivity. Qed.

Example Atoi_too_big :
  strconv.Atoi "9223372036854775808"
  = Err (strconv.rangeError "Atoi" "9223372036854775808").
Proof. reflexivity. Qed.

Example Atoi_min : strconv.Atoi "-9223372036854775808" = Ok (-9223372036854775808).
Proof. reflexivity. Qed.

(** A digit run that overflows 64 bits is a range error even when a byte
    that is no digit follows; a bad byte that comes first is a syntax
    error. *)
Example Atoi_overflow_before_bad_byte :
  strconv.Atoi "18446744073709551616x"
  = Err (strconv.rangeError "Atoi" "18446744073709551616x").
Proof. reflexivity. Qed.

Example Atoi_bad_byte_before_overflow :
  strconv.Atoi "1844674407370955162x"
  = Err (strconv.syntaxError "Atoi" "1844674407370955162x").
Proof. reflexivity. Qed.

Example Atoi_leading_zeros : strconv.Atoi "0000000000000000000000012" = Ok 12.
Proof. reflexivity. Qed.

Example Atoi_below_min :
  strconv.Atoi "-9223372036854775809"
  = Err (strconv.rangeError "Atoi" "-9223372036854775809").
Proof. reflexivity. Qed.

(** A decimal integer that does not fit an [int] is rejected as well, with
    status 400. *)
Example UpdateItem_itemID_out_of_range :
  handlers.CartHandler.UpdateItem NewResponseWriter
    (fixtures.request "cart1" "9223372036854775808" "burger")
    (∅ : gmap string Cart)
  = (Some (NewHTTPError StatusBadRequest
             (strconv.rangeError "Atoi" "9223372036854775808")),
     NewResponseWriter, ∅).
Proof. reflexivity. Qed.

(** Updating item 10 of a cart that has no item 10 is [NotFound] in the
    store. *)
Example UpdateItem_store_not_found :
  repositories.UpdateItem "cart1" 10 (fixtures.burger 1)
    {[ "cart1" := fixtures.cart1 [] ]}
  = (Some repositories.ErrCartNotFound, {[ "cart1" := fixtures.cart1 [] ]}).
Proof. reflexivity. Qed.

(** Deleting an item twice gives the same cart both times. *)
Example DeleteItem_twice :
  let s : gmap string Cart := {[ "cart1" := fixtures.cart1 [fixtures.burger 2] ]} in
  snd (repositories.DeleteItem "cart1" 10 s) = {[ "cart1" := fixtures.cart1 [] ]}
  /\ snd (repositories.DeleteItem "cart1" 10 (snd (repositories.DeleteItem "cart1" 10 s)))
     = {[ "cart1" := fixtures.cart1 [] ]}.
Proof. split; by vm_compute. Qed.

(** A completion event delivered twice through the consumer: no error is
    logged, both deliveries are marked, and the cart ends empty. *)
Example completion_redelivered :
  let m := fixtures.message 0 3 "order1:cart1" in
  let s : gmap string Cart := {[ "cart1" := fixtures.cart1 [fixtures.burger 5] ]} in
  let run :=
    reciever.ConsumeClaim
      (c_handler := events.OrderCompletedEventHandler events.EmptyItems)
      [reciever.Recv m; reciever.Recv m; reciever.ChanClosed] s in
  fst (fst run) = reciever.Returned None
  /\ reciever.logged_errors (snd run) = []
  /\ reciever.marked (snd run) = [(m, ""); (m, "")]
  /\ snd (fst run) = {[ "cart1" := fixtures.cart1 [] ]}.
Proof. repeat split; by vm_compute. Qed.

(** A message that does not decode is logged, marked and skipped. *)
Example undecodable_message_skipped :
  let junk := fixtures.message 0 3 "junk" in
  let m := fixtures.message 0 4 "order1:cart1" in
  let s : gmap string Cart := {[ "cart1" := fixtures.cart1 [fixtures.burger 5] ]} in
  let run :=
    reciever.ConsumeClaim
      (c_handler := events.OrderCompletedEventHandler events.DeleteCart)
      [reciever.Recv junk; reciever.Recv m] s in
  fst (fst run) = reciever.Waiting
  /\ reciever.logged_errors (snd run) = [New "unexpected EOF"]
  /\ reciever.marked (snd run) = [(junk, ""); (m, "")]
  /\ snd (fst run) = ∅.
Proof. repeat split; by vm_compute. Qed.

(** ** Further properties of the handlers *)

(** Case analysis on every [match] of a handler body. *)
Ltac handler_cases :=
  repeat match goal with
         | |- context [match ?x with _ => _ end] => destruct x eqn:?
         | H : context [match ?x with _ => _ end] |- _ => destruct x eqn:?
         end.

Section RouteFacts.
Context `{Codec} `{ErrorText} {R : Type} {repo : repository.GetCreateDeleter R}.
Implicit Types (w : ResponseWriter) (r : Request) (s : R) (route : main.Route).

Lemma router_handler route w r s :
  main.router route w r s = handlers.ErrorHandler (main.handler route) w r s.
Proof. by destruct route. Qed.



End RouteFacts.

Section ErrorHandlerMore.
Context `{ErrorText} {R : Type}.
Implicit Types (w : ResponseWriter) (r : Request) (s : R).


(** X1.  When the wrapped handler returns no error, [ErrorHandler] calls
    [WriteHeader(200)] and nothing else: the body is what the handler
    wrote, and the status is 200 unless the handler had sent another. *)
Theorem ErrorHandler_success_is_200 (f : handlers.HandlerFuncE R) w r s w1 s1 :
  f w r s = (None, w1, s1) ->
  exists w2, handlers.ErrorHandler f w r s = (Some w2, s1)
    /\ calls w2 = calls w1 ++ [CallWriteHeader StatusOK]
    /\ body w2 = body w1
    /\ header w2 = header w1
    /\ status w2 = Some (default StatusOK (status w1)).
Proof.
  intros Hf. unfold handlers.ErrorHandler. rewrite Hf. simpl.
  unfold WriteHeader. destruct (status w1) as [sent|] eqn:Hst.
  - eexists. split; [reflexivity|]. simpl. rewrite ?Hst. auto.
  - simpl. eexists. split; [reflexivity|]. simpl. auto.
Qed.

(** X2.  An [HTTPError] whose code is not a three-digit status makes
    [http.Error] panic when no header was sent yet, so [ErrorHandler] does
    not get to its [WriteHeader(200)]; when the handler had sent a header
    already, the code is ignored and there is no panic. *)
Theorem ErrorHandler_invalid_code_panics (f : handlers.HandlerFuncE R)
    w r s e w1 s1 code e' :
  f w r s = (Some e, w1, s1) ->
  AsHTTPError e = Some (code, e') ->
  code < 100 \/ 999 < code ->
  (status w1 = None -> handlers.ErrorHandler f w r s = (None, s1))
  /\ (forall sent, status w1 = Some sent ->
      exists w2, handlers.ErrorHandler f w r s = (Some w2, s1)
        /\ status w2 = Some sent).
Proof.
  intros Hf Has Hcode. unfold handlers.ErrorHandler. rewrite Hf, Has.
  unfold http.Error_, WriteHeader. simpl. split.
  - intros ->.
    replace ((code <? 100) || (999 <? code)) with true; [reflexivity|].
    symmetry. apply orb_true_iff.
    destruct Hcode; [left; by apply Z.ltb_lt | right; by apply Z.ltb_lt].
  - intros sent ->. simpl. eexists. split; reflexivity.
Qed.

End ErrorHandlerMore.

Lemma ErrorHandler_success_is_200_witness :
  exists w2,
    handlers.ErrorHandler (fun w _ s => (None, Write "{}" w, s))
      NewResponseWriter (fixtures.request "cart1" "" "") tt = (Some w2, tt)
    /\ calls w2 = [CallWrite "{}"; CallWriteHeader StatusOK]
    /\ body w2 = ["{}"]
    /\ header w2 = ∅
    /\ status w2 = Some 200.
Proof.
  exact (ErrorHandler_success_is_200 (fun w _ s => (None, Write "{}" w, s))
           NewResponseWriter (fixtures.request "cart1" "" "") tt
           (Write "{}" NewResponseWriter) tt eq_refl).
Defined.

Lemma ErrorHandler_invalid_code_panics_witness :
  handlers.ErrorHandler (fun w _ s => (Some (NewHTTPError 0 (New "boom")), w, s))
    NewResponseWriter (fixtures.request "cart1" "" "") tt = (None, tt).
Proof.
  apply (proj1 (ErrorHandler_invalid_code_panics
                  (fun w _ s => (Some (NewHTTPError 0 (New "boom")), w, s))
                  NewResponseWriter (fixtures.request "cart1" "" "") tt
                  (NewHTTPError 0 (New "boom")) NewResponseWriter tt 0 (New "boom")
                  eq_refl eq_refl (or_introl eq_refl) )).
  reflexivity.
Defined.

Section RouteTheorems.
Context `{Codec} `{ErrorText} {R : Type} {repo : repository.GetCreateDeleter R}.
Implicit Types (w : ResponseWriter) (r : Request) (s : R) (route : main.Route).



(** X5.  The handlers that change the store, all but [Create] and [Get],
    never touch the response writer.  So a success of theirs is answered
    with status 200 and no body. *)
Theorem mutating_handlers_write_nothing route w r s :
  route <> main.POST_cart -> route <> main.GET_cart_id ->
  snd (fst (main.handler route w r s)) = w
  /\ (fst (fst (main.handler route w r s)) = None ->
      status w = None ->
      exists w',
        main.router route w r s = (Some w', snd (main.handler route w r s))
        /\ body w' = body w
        /\ header w' = header w
        /\ status w' = Some 200).
Proof.
  intros Hcreate Hget.
  assert (Hw : snd (fst (main.handler route w r s)) = w).
  { destruct route; try done; simpl;
      unfold handlers.CartHandler.Delete, handlers.CartHandler.Update,
        handlers.CartHandler.AddItem, handlers.CartHandler.UpdateItem,
        handlers.CartHandler.DeleteItem;
      handler_cases; reflexivity. }
  split; [exact Hw|]. intros Hnil Hst. rewrite router_handler.
  destruct (main.handler route w r s) as [[err w1] s1] eqn:Hh.
  simpl in Hw, Hnil. subst w1 err.
  unfold handlers.ErrorHandler. rewrite Hh. simpl.
  unfold WriteHeader. rewrite Hst. simpl. eexists. split; [reflexivity|]. auto.
Qed.

End RouteTheorems.



Lemma mutating_handlers_write_nothing_witness :
  let r := fixtures.request "cart1" "" "" in
  let s : gmap string Cart := {[ "cart1" := fixtures.cart1 [fixtures.burger 2] ]} in
  exists w',
    main.router main.DELETE_cart_id NewResponseWriter r s = (Some w', ∅)
    /\ body w' = []
    /\ header w' = ∅
    /\ status w' = Some 200.
Proof.
  intros r s.
  destruct (mutating_handlers_write_nothing main.DELETE_cart_id NewResponseWriter r s)
    as [_ Hok]; [discriminate | discriminate |].
  destruct (Hok eq_refl eq_refl) as (w' & Hrun & Hb & Hh & Hst).
  exists w'. split; [|auto]. rewrite Hrun. f_equal.
Defined.

(** *** Which repository calls a handler makes *)

Section CallFacts.
Context `{Codec} {R : Type} (repo : repository.GetCreateDeleter R).
Implicit Types (w : ResponseWriter) (r : Request) (s : R)
  (log : list repository.RepoCall).

(** X6.  On a repository that logs its calls: [Update] calls [Get] for
    the id of the path before anything else and calls the repository's
    [Update] only after that [Get] has returned a cart, with the cart
    mapped from it; [Create] writes first and reads back the id of the
    cart it wrote.  Neither makes any other call. *)
Theorem Create_and_Update_call_order w r s log :
  (exists calls,
     snd (snd (handlers.CartHandler.Update
                 (h_repository := repository.traced repo) w r (s, log)))
     = log ++ calls
     /\ (calls = []
         \/ calls = [repository.CallGet (PathValue "id" r)]
         \/ exists cart req,
              fst (repository.Get (PathValue "id" r) s) = Ok cart
              /\ DecodeUpdateCartReq (Body r) = Ok req
              /\ calls = [repository.CallGet (PathValue "id" r);
                          repository.CallUpdate (MapUpdateCartReqToCart cart req)]))
  /\ (exists calls,
     snd (snd (handlers.CartHandler.Create
                 (h_repository := repository.traced repo) w r (s, log)))
     = log ++ calls
     /\ (calls = []
         \/ exists req,
              DecodeCreateCartReq (Body r) = Ok req
              /\ (calls = [repository.CallUpdate (MapCreateCartReqToCart req)]
                  \/ calls = [repository.CallUpdate (MapCreateCartReqToCart req);
                              repository.CallGet (ID (MapCreateCartReqToCart req))]))).
Proof.
  split.
  - unfold handlers.CartHandler.Update. simpl. unfold repository.logged.
    destruct (DecodeUpdateCartReq (Body r)) as [req|err] eqn:Hd;
      [|exists []; split; [by rewrite app_nil_r | by left]].
    destruct (repository.Get (PathValue "id" r) s) as [[cart|err] s1] eqn:Hg.
    + destruct (repository.Update (MapUpdateCartReqToCart cart req) s1)
        as [[err|] s2]; simpl;
        (eexists; split; [by rewrite <- app_assoc|]; right; right;
         exists cart, req; auto).
    + destruct (Is err repositories.ErrCartNotFound); simpl;
        (eexists; split; [reflexivity|]; right; left; reflexivity).
  - unfold handlers.CartHandler.Create, handlers.Encode. simpl.
    unfold repository.logged.
    destruct (DecodeCreateCartReq (Body r)) as [req|err] eqn:Hd;
      [|exists []; split; [by rewrite app_nil_r | by left]].
    destruct (repository.Update (MapCreateCartReqToCart req) s)
      as [[err|] s1]; simpl.
    { eexists. split; [reflexivity|]. right. exists req. auto. }
    destruct (repository.Get (ID (MapCreateCartReqToCart req)) s1)
      as [[result|err] s2]; simpl.
    + destruct (Marshal result); simpl;
        (eexists; split; [by rewrite <- app_assoc|]; right; exists req; auto).
    + eexists. split; [by rewrite <- app_assoc|]. right. exists req. auto.
Qed.

(** X7.  On a repository that logs its calls: [UpdateItem] and
    [DeleteItem] make at most one call, and the item id they pass on is
    the value of a path segment that has the syntax of a decimal integer
    and fits a 64-bit [int]. *)
Theorem item_handlers_pass_valid_itemID w r s log :
  (exists calls,
     snd (snd (handlers.CartHandler.UpdateItem
                 (h_repository := repository.traced repo) w r (s, log)))
     = log ++ calls
     /\ (calls = []
         \/ exists itemID entity,
              strconv.Atoi (PathValue "itemID" r) = Ok itemID
              /\ strconv.is_decimal_integer (PathValue "itemID" r) = true
              /\ - 2 ^ 63 <= itemID <= 2 ^ 63 - 1
              /\ DecodeLineItem (Body r) = Ok entity
              /\ calls = [repository.CallUpdateItem (PathValue "id" r) itemID entity]))
  /\ (exists calls,
     snd (snd (handlers.CartHandler.DeleteItem
                 (h_repository := repository.traced repo) w r (s, log)))
     = log ++ calls
     /\ (calls = []
         \/ exists itemID,
              strconv.Atoi (PathValue "itemID" r) = Ok itemID
              /\ strconv.is_decimal_integer (PathValue "itemID" r) = true
              /\ - 2 ^ 63 <= itemID <= 2 ^ 63 - 1
              /\ calls = [repository.CallDeleteItem (PathValue "id" r) itemID])).
Proof.
  split.
  - unfold handlers.CartHandler.UpdateItem. simpl. unfold repository.logged.
    destruct (strconv.Atoi (PathValue "itemID" r)) as [itemID|err] eqn:Ha;
      [|exists []; split; [by rewrite app_nil_r | by left]].
    destruct (Atoi_Ok _ _ Ha) as [Hsyn Hrange].
    destruct (DecodeLineItem (Body r)) as [entity|err] eqn:Hd;
      [|exists []; split; [by rewrite app_nil_r | by left]].
    destruct (repository.UpdateItem (PathValue "id" r) itemID entity s)
      as [[err|] s1]; simpl;
      (eexists; split; [reflexivity|]; right; exists itemID, entity; auto).
  - unfold handlers.CartHandler.DeleteItem. simpl. unfold repository.logged.
    destruct (strconv.Atoi (PathValue "itemID" r)) as [itemID|err] eqn:Ha;
      [|exists []; split; [by rewrite app_nil_r | by left]].
    destruct (Atoi_Ok _ _ Ha) as [Hsyn Hrange].
    destruct (repository.DeleteItem (PathValue "id" r) itemID s)
      as [[err|] s1]; simpl;
      (eexists; split; [reflexivity|]; right; exists itemID; auto).
Qed.

End CallFacts.

Section StatusFacts.
Context `{Codec} `{ErrorText} {R : Type} {repo : repository.GetCreateDeleter R}.
Implicit Types (w : ResponseWriter) (r : Request) (s : R) (route : main.Route).

(** The response to a handler that fails with an [HTTPError] before
    anything was sent: the status of the error, its text on a line of
    plain text, and the store the handler left. *)
Lemma router_error_response route w r s code e w1 s1 :
  main.handler route w r s = (Some (NewHTTPError code e), w1, s1) ->
  status w1 = None ->
  100 <= code <= 999 ->
  exists w',
    main.router route w r s = (Some w', s1)
    /\ status w' = Some code
    /\ body w' = body w1 ++ [Error (HTTPError code e) +:+ "
"]
    /\ header w' !! "Content-Type" = Some "text/plain; charset=utf-8".
Proof.
  intros Hh Hst Hcode. rewrite router_handler.
  unfold handlers.ErrorHandler. rewrite Hh. simpl.
  unfold http.Error_, WriteHeader. simpl. rewrite Hst.
  replace ((code <? 100) || (999 <? code)) with false
    by (symmetry; apply orb_false_intro; apply Z.ltb_ge; lia).
  simpl. eexists. split; [reflexivity|]. simpl.
  split; [reflexivity|]. split; [reflexivity|].
  by rewrite lookup_insert_ne, lookup_insert_eq.
Qed.



(** X10.  A failure of the repository is answered with status 400 on the
    create route, for its write and for its read-back alike, and on the
    delete route; and with status 500 on the routes that add and delete an
    item, whatever the error is, [ErrCartNotFound] included.  The store is
    the one the failing call left. *)
Theorem store_failure_statuses w r s :
  status w = None ->
  (forall req err s1,
     DecodeCreateCartReq (Body r) = Ok req ->
     repository.Update (MapCreateCartReqToCart req) s = (Some err, s1) ->
     exists w', main.router main.POST_cart w r s = (Some w', s1)
       /\ status w' = Some 400)
  /\ (forall req err s1 s2,
     DecodeCreateCartReq (Body r) = Ok req ->
     repository.Update (MapCreateCartReqToCart req) s = (None, s1) ->
     repository.Get (ID (MapCreateCartReqToCart req)) s1 = (Err err, s2) ->
     exists w', main.router main.POST_cart w r s = (Some w', s2)
       /\ status w' = Some 400)
  /\ (forall err s1,
     repository.Delete (PathValue "id" r) s = (Some err, s1) ->
     exists w', main.router main.DELETE_cart_id w r s = (Some w', s1)
       /\ status w' = Some 400)
  /\ (forall entity err s1,
     DecodeLineItem (Body r) = Ok entity ->
     repository.AddItem (PathValue "id" r) entity s = (Some err, s1) ->
     exists w', main.router main.POST_cart_id_item w r s = (Some w', s1)
       /\ status w' = Some 500)
  /\ (forall itemID err s1,
     strconv.Atoi (PathValue "itemID" r) = Ok itemID ->
     repository.DeleteItem (PathValue "id" r) itemID s = (Some err, s1) ->
     exists w', main.router main.DELETE_cart_id_item_itemID w r s = (Some w', s1)
       /\ status w' = Some 500).
Proof.
  intros Hst. repeat split.
  - intros req err s1 Hd Hu.
    destruct (router_error_response main.POST_cart w r s 400 err w s1)
      as (w' & ? & ? & _); auto; [|lia|eauto].
    simpl. unfold handlers.CartHandler.Create. by rewrite Hd, Hu.
  - intros req err s1 s2 Hd Hu Hg.
    destruct (router_error_response main.POST_cart w r s 400 err w s2)
      as (w' & ? & ? & _); auto; [|lia|eauto].
    simpl. unfold handlers.CartHandler.Create. by rewrite Hd, Hu, Hg.
  - intros err s1 Hdel.
    destruct (router_error_response main.DELETE_cart_id w r s 400 err w s1)
      as (w' & ? & ? & _); auto; [|lia|eauto].
    simpl. unfold handlers.CartHandler.Delete. by rewrite Hdel.
  - intros entity err s1 Hd Ha.
    destruct (router_error_response main.POST_cart_id_item w r s 500 err w s1)
      as (w' & ? & ? & _); auto; [|lia|eauto].
    simpl. unfold handlers.CartHandler.AddItem. by rewrite Hd, Ha.
  - intros itemID err s1 Ha Hdel.
    destruct (router_error_response main.DELETE_cart_id_item_itemID w r s 500 err w s1)
      as (w' & ? & ? & _); auto; [|lia|eauto].
    simpl. unfold handlers.CartHandler.DeleteItem. by rewrite Ha, Hdel.
Qed.

End StatusFacts.



Lemma store_failure_statuses_witness :
  (exists w',
     main.router (repo := fixtures.broken) main.DELETE_cart_id NewResponseWriter
       (fixtures.request "cart1" "" "") tt = (Some w', tt)
     /\ status w' = Some 400)
  /\ (exists w',
     main.router (repo := fixtures.broken) main.POST_cart_id_item NewResponseWriter
       (fixtures.request "cart1" "" "burger") tt = (Some w', tt)
     /\ status w' = Some 500).
Proof.
  split.
  - destruct (store_failure_statuses (repo := fixtures.broken) NewResponseWriter
                (fixtures.request "cart1" "" "") tt eq_refl)
      as (_ & _ & Hdel & _).
    exact (Hdel fixtures.unreachable tt eq_refl).
  - destruct (store_failure_statuses (repo := fixtures.broken) NewResponseWriter
                (fixtures.request "cart1" "" "burger") tt eq_refl)
      as (_ & _ & _ & Hadd & _).
    exact (Hadd (fixtures.burger 1) fixtures.unreachable tt eq_refl eq_refl).
Defined.

(** The calls of a replace and of a create on a store that logs them. *)
Example Update_then_Create_calls :
  let s : gmap string Cart := {[ "cart1" := fixtures.cart1 [fixtures.burger 1] ]} in
  snd (snd (handlers.CartHandler.Update
              (h_repository := repository.traced repositories.CartRepository)
              NewResponseWriter (fixtures.request "cart1" "" "items") (s, [])))
  = [repository.CallGet "cart1";
     repository.CallUpdate (fixtures.cart1 [fixtures.burger 2])]
  /\ snd (snd (handlers.CartHandler.Create
              (h_repository := repository.traced repositories.CartRepository)
              NewResponseWriter (fixtures.request "" "" "cart1") (s, [])))
  = [repository.CallUpdate (fixtures.cart1 []); repository.CallGet "cart1"].
Proof. split; reflexivity. Qed.

(** A signed item id with leading zeros is accepted and passed on as 10. *)
Example DeleteItem_signed_itemID :
  let s : gmap string Cart := {[ "cart1" := fixtures.cart1 [fixtures.burger 1] ]} in
  snd (snd (handlers.CartHandler.DeleteItem
              (h_repository := repository.traced repositories.CartRepository)
              NewResponseWriter (fixtures.request "cart1" "+010" "") (s, [])))
  = [repository.CallDeleteItem "cart1" 10].
Proof. reflexivity. Qed.

(** ** Further properties of the consumer *)

Section ClaimMore.
Import reciever context.
Context {H : Type} {c_handler : MessageHandler H}.
Implicit Types (h : H) (events : list SelectEvent)
  (messages : list sarama.ConsumerMessage).

Lemma ConsumeClaim_messages messages events h :
  ConsumeClaim ((Recv <$> messages) ++ events) h
  = (fst (fst (ConsumeClaim events (fst (on_messages messages h)))),
     snd (fst (ConsumeClaim events (fst (on_messages messages h)))),
     snd (on_messages messages h)
     ++ snd (ConsumeClaim events (fst (on_messages messages h)))).
Proof.
  rewrite !ConsumeClaim_fold, received_messages, ending_messages.
  cbn [fst snd].
  revert h. induction messages as [|m rest IH]; intros h.
  - reflexivity.
  - change ((m :: rest) ++ received events) with (m :: (rest ++ received events)).
    rewrite !on_messages_cons. cbn [fst snd].
    specialize (IH (fst (on_message m h))).
    injection IH as IHst IHeffs.
    rewrite IHst. f_equal. rewrite <- !app_assoc. f_equal.
    rewrite !app_assoc in IHeffs |- *. exact IHeffs.
Qed.

Lemma waiting_is_all_messages events h :
  fst (fst (ConsumeClaim events h)) = Waiting -> events = Recv <$> received events.
Proof.
  rewrite ConsumeClaim_fold. cbn [fst].
  induction events as [|[m| |] rest IH]; simpl; try discriminate; [reflexivity|].
  intros Hw. f_equal. by apply IH.
Qed.

Lemma returned_ignores_rest events events' h :
  fst (fst (ConsumeClaim events h)) <> Waiting ->
  ConsumeClaim (events ++ events') h = ConsumeClaim events h.
Proof.
  revert h. induction events as [|[m| |] rest IH]; intros h; simpl;
    try reflexivity.
  - intros Hw. by destruct Hw.
  - destruct (on_message m h) as [h1 effs].
    destruct (ConsumeClaim rest h1) as [[out h2] effs'] eqn:Hrun. simpl.
    intros Hw. rewrite IH; [by rewrite Hrun | by rewrite Hrun].
Qed.

(** X11.  The loop can be followed in pieces.  As long as it is waiting
    after the events [events1], its run on [events1 ++ events2] is its run
    on [events1] followed by its run on [events2] from the handler state
    reached; once it has returned on [events1], nothing that arrives later
    changes anything: no message queued behind is handled or marked. *)
Theorem ConsumeClaim_resumes events1 events2 h :
  ConsumeClaim (events1 ++ events2) h
  = match fst (fst (ConsumeClaim events1 h)) with
    | Waiting =>
        (fst (fst (ConsumeClaim events2 (snd (fst (ConsumeClaim events1 h))))),
         snd (fst (ConsumeClaim events2 (snd (fst (ConsumeClaim events1 h))))),
         snd (ConsumeClaim events1 h)
         ++ snd (ConsumeClaim events2 (snd (fst (ConsumeClaim events1 h)))))
    | Returned _ => ConsumeClaim events1 h
    end.
Proof.
  destruct (fst (fst (ConsumeClaim events1 h))) as [err|] eqn:Hout.
  - apply returned_ignores_rest. by rewrite Hout.
  - pose proof (waiting_is_all_messages events1 h Hout) as Hall.
    rewrite Hall at 1. rewrite ConsumeClaim_messages.
    rewrite (ConsumeClaim_fold events1 h). cbn [fst snd].
    replace (snd (ending events1)) with (@nil Effect); [by rewrite app_nil_r|].
    rewrite ConsumeClaim_fold in Hout. cbn [fst] in Hout.
    clear Hall. induction events1 as [|[m| |] rest IH]; simpl in *;
      try discriminate; [reflexivity | by apply IH].
Qed.

(** X12.  When the channel of a claim is closed, the loop logs one line
    and returns [nil]; the messages received before have all been handled
    and marked, and the effects end with that log line. *)
Theorem ConsumeClaim_channel_closed messages events h :
  ConsumeClaim ((Recv <$> messages) ++ ChanClosed :: events) h
  = (Returned None, fst (on_messages messages h),
     snd (on_messages messages h) ++ [LogInfo "message channel was closed"])
  /\ marked (snd (on_messages messages h)) = (fun m => (m, "")) <$> messages
  /\ handled (snd (on_messages messages h)) = to_Message <$> messages.
Proof.
  split.
  - by rewrite ConsumeClaim_fold, received_messages, ending_messages, app_nil_r.
  - destruct (on_messages_observed messages h) as (Hh & Hm & _). auto.
Qed.

Lemma on_message_same_Value m1 m2 h :
  sarama.Value m1 = sarama.Value m2 ->
  fst (on_message m1 h) = fst (on_message m2 h)
  /\ handled (snd (on_message m1 h)) = handled (snd (on_message m2 h))
  /\ logged_errors (snd (on_message m1 h)) = logged_errors (snd (on_message m2 h)).
Proof.
  intros Hv.
  assert (Hm : to_Message m1 = to_Message m2) by (unfold to_Message; by rewrite Hv).
  destruct (on_message_observed m1 h) as (Hh1 & _ & _ & He1).
  destruct (on_message_observed m2 h) as (Hh2 & _ & _ & He2).
  rewrite Hh1, Hh2, He1, He2, !on_message_effects, Hm. auto.
Qed.

(** X13.  The handler is given the payload of a message and nothing
    else: no attribute is ever set, and two runs of messages with the same
    payloads, whatever their topics, partitions, offsets and timestamps,
    put the same calls to the handler, leave the same handler state and log
    the same errors. *)
Theorem handler_sees_only_Value messages1 messages2 h :
  sarama.Value <$> messages1 = sarama.Value <$> messages2 ->
  fst (on_messages messages1 h) = fst (on_messages messages2 h)
  /\ handled (snd (on_messages messages1 h)) = handled (snd (on_messages messages2 h))
  /\ logged_errors (snd (on_messages messages1 h))
     = logged_errors (snd (on_messages messages2 h))
  /\ Forall (fun m => Attributes m = []) (handled (snd (on_messages messages1 h))).
Proof.
  intros Hv.
  assert (Hattr : forall ms h', Forall (fun m => Attributes m = [])
                                  (handled (snd (on_messages ms h')))).
  { intros ms h'. destruct (on_messages_observed ms h') as (-> & _).
    induction ms as [|m rest IH]; constructor; [reflexivity | exact IH]. }
  split; [|split; [|split]]; [| | |apply Hattr].
  all: revert messages2 h Hv;
    induction messages1 as [|m1 rest1 IH]; intros [|m2 rest2] h Hv;
    try discriminate; [reflexivity|].
  all: injection Hv as Hv1 Hv2; rewrite !on_messages_cons; cbn [fst snd];
    destruct (on_message_same_Value m1 m2 h Hv1) as (Hst & Hh & He).
  - rewrite Hst. by apply IH.
  - unfold handled in *. rewrite !omap_app, Hh, Hst. f_equal. by apply IH.
  - unfold logged_errors in *. rewrite !omap_app, He, Hst. f_equal. by apply IH.
Qed.

End ClaimMore.

Lemma handler_sees_only_Value_witness :
  let m1 := fixtures.message 0 1 "bad" in
  let m2 := {| sarama.Topic := "other"; sarama.Partition := 3; sarama.Offset := 99;
               sarama.Timestamp := 5; sarama.Value := "bad" |} in
  fst (reciever.on_messages [m1] ([] : list string))
  = fst (reciever.on_messages [m2] ([] : list string))
  /\ reciever.logged_errors (snd (reciever.on_messages [m1] ([] : list string)))
     = reciever.logged_errors (snd (reciever.on_messages [m2] ([] : list string))).
Proof.
  intros m1 m2.
  destruct (handler_sees_only_Value [m1] [m2] ([] : list string) eq_refl)
    as (Hst & _ & He & _).
  split; [exact Hst | exact He].
Defined.

Section RecieveMore.
Import reciever context.
Implicit Types (k : MessageReciever) (ctx : Context) (rounds : list Round).

Lemma Recieve_spec k ctx rounds :
  exists n : nat,
    snd (Recieve k ctx rounds)
    = replicate (S n) {| call_ctx := ctx; call_topics := [topic k] |}
    /\ (n <= length rounds)%nat
    /\ Forall quiet (take n rounds)
    /\ match fst (Recieve k ctx rounds) with
       | Waiting => n = length rounds
       | Returned out =>
           exists r, rounds !! n = Some r /\ ~ quiet r /\ out = consume_err r
                     /\ (out = None -> ctx_err r <> None)
       end.
Proof.
  induction rounds as [|r rest IH]; simpl.
  - exists 0%nat. simpl. auto.
  - destruct (consume_err r) as [err|] eqn:Hc.
    + exists 0%nat. simpl.
      split; [reflexivity|]. split; [lia|]. split; [constructor|].
      exists r. split; [reflexivity|].
      split; [intros [Hq _]; congruence|].
      split; [by rewrite Hc | discriminate].
    + destruct (ctx_err r) as [cerr|] eqn:He.
      * exists 0%nat. simpl.
        split; [reflexivity|]. split; [lia|]. split; [constructor|].
        exists r. split; [reflexivity|].
        split; [intros [_ Hq]; congruence|].
        split; [by rewrite Hc | congruence].
      * destruct IH as (n & Hcalls & Hn & Hquiet & Hout).
        destruct (Recieve k ctx rest) as [out calls]. simpl in *.
        exists (S n). simpl. rewrite Hcalls.
        split; [reflexivity|]. split; [lia|].
        split; [by constructor|].
        destruct out as [out|]; [exact Hout | by rewrite Hout].
Qed.

(** X14.  [Recieve] calls [Consume] once per round, always with the
    context it was given and the one topic of the receiver, for as long as
    [Consume] returns [nil] and the context is not cancelled: on such
    rounds it is still consuming.  It returns after the first round that
    is different, with the error of [Consume] if there is one and with
    [nil] otherwise; it never returns an error that [Consume] did not
    return. *)
Theorem Recieve_outcome k ctx rounds :
  (Forall quiet rounds <-> fst (Recieve k ctx rounds) = Waiting)
  /\ exists n : nat,
    snd (Recieve k ctx rounds)
    = replicate (S n) {| call_ctx := ctx; call_topics := [topic k] |}
    /\ (n <= length rounds)%nat
    /\ Forall quiet (take n rounds)
    /\ match fst (Recieve k ctx rounds) with
       | Waiting => n = length rounds
       | Returned out =>
           exists r, rounds !! n = Some r /\ ~ quiet r /\ out = consume_err r
                     /\ (out = None -> ctx_err r <> None)
       end.
Proof.
  destruct (Recieve_spec k ctx rounds) as (n & Hcalls & Hn & Hquiet & Hout).
  split; [|by exists n].
  split.
  - intros Hall. by rewrite (Recieve_goes_on k ctx rounds Hall).
  - intros Hw. rewrite Hw in Hout. subst n. by rewrite firstn_all in Hquiet.
Qed.

(** X15.  The consumer goroutine of [main] runs [Recieve] on the
    background context, which is never cancelled.  So it goes on calling
    [Consume], always for the configured topic, until [Consume] fails; it
    then logs that error and ends, and never logs a [nil] error: the loop
    has no clean stop. *)
Theorem main_consumer_stops_only_on_failure (OrdersTopic : string) rounds :
  Forall (fun r => ctx_err r = None) rounds ->
  Forall (fun c => c = {| call_ctx := Background; call_topics := [OrdersTopic] |})
    (snd (main.recieve_goroutine OrdersTopic rounds))
  /\ match fst (main.recieve_goroutine OrdersTopic rounds) with
     | None =>
         Forall quiet rounds
         /\ length (snd (main.recieve_goroutine OrdersTopic rounds))
            = S (length rounds)
     | Some (recieveErr, msg) =>
         msg = "Error recieving messages"
         /\ exists err r,
              recieveErr = Some err /\ r ∈ rounds /\ consume_err r = Some err
     end.
Proof.
  intros Hctx. unfold main.recieve_goroutine.
  destruct (Recieve_spec {| topic := OrdersTopic |} Background rounds)
    as (n & Hcalls & Hn & Hquiet & Hout).
  destruct (Recieve {| topic := OrdersTopic |} Background rounds) as [out calls].
  cbn [fst snd] in *. subst calls. split; [apply Forall_replicate; reflexivity|].
  destruct out as [out|].
  - split; [reflexivity|].
    destruct Hout as (r & Hr & Hnq & -> & Hnil).
    assert (Hin : r ∈ rounds) by (by eapply list_elem_of_lookup_2).
    destruct (consume_err r) as [err|] eqn:Hc.
    + exists err, r. auto.
    + exfalso. apply Hnil; [reflexivity|].
      rewrite Forall_forall in Hctx. by apply Hctx.
  - subst n. rewrite firstn_all in Hquiet. split; [exact Hquiet|].
    by rewrite length_replicate.
Qed.

End RecieveMore.

Lemma main_consumer_stops_only_on_failure_witness :
  main.recieve_goroutine "orders"
    [fixtures.quiet_round; fixtures.quiet_round; fixtures.failed_round;
     fixtures.quiet_round]
  = (Some (Some (New "kafka: client has run out of available brokers"),
           "Error recieving messages"),
     replicate 3 {| reciever.call_ctx := context.Background;
                    reciever.call_topics := ["orders"] |})
  /\ Forall (fun c => c = {| reciever.call_ctx := context.Background;
                             reciever.call_topics := ["orders"] |})
       (snd (main.recieve_goroutine "orders"
               [fixtures.quiet_round; fixtures.quiet_round; fixtures.failed_round;
                fixtures.quiet_round])).
Proof.
  split; [reflexivity|].
  apply (main_consumer_stops_only_on_failure "orders"
           [fixtures.quiet_round; fixtures.quiet_round; fixtures.failed_round;
            fixtures.quiet_round]).
  repeat constructor.
Defined.

(** ** The checkout route *)

Section CheckoutRouteFacts.
Import checkout_api js.
Context {S : Type} (imports : Imports S).

(** X16.  The route sends exactly one response.  It is the two ids of the
    checkout, under the status the response had, when the body fits the
    schema and [Checkout], called for the user ["anon"], resolves; and it
    is the error under status 500, the error being also logged, when the
    schema rejects the body or [Checkout] rejects. *)
Theorem post_checkout_answers_once (body : Body) (res : Response) (s : S) :
  exists answer,
    sent (fst (fst (post_checkout body res s))) = sent res ++ [answer]
    /\ match answer with
       | SentIds c t =>
           statusCode (fst (fst (post_checkout body res s))) = statusCode res
           /\ snd (post_checkout body res s) = []
           /\ exists req result,
                UserCheckoutSchema_parse body = inr req
                /\ Checkout req "anon" s = (inr result, snd (fst (post_checkout body res s)))
                /\ c = checkout_id result /\ t = transaction_id result
       | SentError error =>
           statusCode (fst (fst (post_checkout body res s))) = 500
           /\ snd (post_checkout body res s) = [error]
           /\ (UserCheckoutSchema_parse body = inl error
               /\ snd (fst (post_checkout body res s)) = s
               \/ exists req,
                    UserCheckoutSchema_parse body = inr req
                    /\ Checkout req "anon" s
                       = (inl error, snd (fst (post_checkout body res s))))
       end.
Proof.
  unfold post_checkout.
  destruct (UserCheckoutSchema_parse body) as [error|req] eqn:Hp.
  - exists (SentError error). simpl.
    split; [reflexivity|]. split; [reflexivity|]. split; [reflexivity|].
    left. split; reflexivity.
  - destruct (Checkout req "anon" s) as [[error|result] s1] eqn:Hc.
    + exists (SentError error). simpl.
      split; [reflexivity|]. split; [reflexivity|]. split; [reflexivity|].
      right. exists req. split; [reflexivity | exact Hc].
    + exists (SentIds (checkout_id result) (transaction_id result)). simpl.
      split; [reflexivity|]. split; [reflexivity|]. split; [reflexivity|].
      exists req, result. split; [reflexivity|]. split; [exact Hc|].
      split; reflexivity.
Qed.

(** X17.  With the calls of [Checkout] recorded: a request makes at most
    one call, every call is made for the user ["anon"], whatever the
    request says, and a body that the schema rejects makes none. *)
Theorem post_checkout_calls (body : Body) (res : Response) (s : S)
    (log : list (UserCheckoutReq * string)) :
  exists calls,
    snd (snd (fst (post_checkout (imports := recorded imports) body res (s, log))))
    = log ++ calls
    /\ (length calls <= 1)%nat
    /\ Forall (fun call => snd call = "anon") calls
    /\ (forall error, UserCheckoutSchema_parse body = inl error -> calls = [])
    /\ (forall req, UserCheckoutSchema_parse body = inr req -> calls = [(req, "anon")]).
Proof.
  unfold post_checkout. simpl.
  destruct (UserCheckoutSchema_parse body) as [error|req] eqn:Hp.
  - exists []. simpl. rewrite app_nil_r. repeat split; auto. discriminate.
  - destruct (Checkout req "anon" s) as [[error|result] s1] eqn:Hc; simpl;
      exists [(req, "anon")]; simpl;
      (split; [reflexivity|]; split; [lia|]; split; [by repeat constructor|];
       split; [discriminate | by intros ? [= <-]]).
Qed.

End CheckoutRouteFacts.

Lemma post_checkout_calls_witness :
  snd (snd (fst (checkout_api.post_checkout
                   (imports := checkout_api.recorded fixtures.checkout_imports)
                   "" checkout_api.NewResponse (0%nat, []))))
  = []
  /\ snd (snd (fst (checkout_api.post_checkout
                   (imports := checkout_api.recorded fixtures.checkout_imports)
                   "fail" checkout_api.NewResponse (0%nat, []))))
  = [("fail", "anon")].
Proof.
  destruct (post_checkout_calls fixtures.checkout_imports ""
              checkout_api.NewResponse 0%nat [])
    as (calls0 & Hlog0 & _ & _ & Hnone & _).
  destruct (post_checkout_calls fixtures.checkout_imports "fail"
              checkout_api.NewResponse 0%nat [])
    as (calls1 & Hlog1 & _ & _ & _ & Hsome).
  rewrite (Hnone (js.new_Error "Required") eq_refl) in Hlog0.
  rewrite (Hsome "fail" eq_refl) in Hlog1.
  split; [exact Hlog0 | exact Hlog1].
Defined.

(** ** The frontend's fetch helpers *)

Section FetchFacts.
Import frontend js.
Context {J : Type}.
Implicit Types (script failures rest : list (FetchOutcome J)) (url : string)
  (n : Z) (effs : list Effect).

Lemma attempts_app effs1 effs2 :
  attempts (effs1 ++ effs2) = (attempts effs1 + attempts effs2)%nat.
Proof.
  unfold attempts. induction effs1 as [|e effs1 IH]; simpl; [reflexivity|].
  destruct e; simpl; by rewrite ?IH.
Qed.

Lemma slept_app effs1 effs2 : slept (effs1 ++ effs2) = slept effs1 + slept effs2.
Proof.
  unfold slept. induction effs1 as [|e effs1 IH]; simpl; [reflexivity|].
  destruct e; simpl; rewrite ?IH; lia.
Qed.

(** Failed attempts that the count allows are followed by the next
    attempt, with the count lowered by one each time. *)
Lemma fetchWithRetry_failures failures rest url n :
  Forall fails failures ->
  n < 0 \/ Z.of_nat (length failures) <= n ->
  exists effs,
    fetchWithRetry (failures ++ rest) url (Some n)
    = (fst (fetchWithRetry rest url (Some (n - Z.of_nat (length failures)))),
       effs ++ snd (fetchWithRetry rest url (Some (n - Z.of_nat (length failures)))))
    /\ attempts effs = length failures
    /\ slept effs = 1000 * Z.of_nat (length failures).
Proof.
  intros Hfail. revert n.
  induction Hfail as [|o failures [error Ho] _ IH]; intros n Hn.
  - exists []. simpl. rewrite Z.sub_0_r.
    by destruct (fetchWithRetry rest url (Some n)).
  - destruct (IH (n - 1)) as (effs & Hrun & Hatt & Hslept).
    { simpl length in Hn. lia. }
    change ((o :: failures) ++ rest) with (o :: (failures ++ rest)).
    cbn [fetchWithRetry]. rewrite Ho. cbn [from_option id].
    rewrite decide_True by (simpl length in Hn; lia).
    rewrite Hrun.
    replace (n - 1 - Z.of_nat (length failures))
      with (n - Z.of_nat (length (o :: failures))) by (simpl length; lia).
    eexists. split; [rewrite app_assoc; reflexivity|].
    rewrite attempts_app, slept_app, Hatt, Hslept. simpl length.
    split; [reflexivity | simpl; lia].
Qed.

(** X18.  With a retry count [n], not negative, and every attempt
    failing, [fetchWithRetry] makes [n + 1] attempts, sleeping a second
    before each, and then resolves, it does not reject, with the error of
    the last attempt. *)
Theorem fetchWithRetry_gives_up failures o error rest url :
  Forall fails failures ->
  try_fetch o = inl error ->
  exists effs,
    fetchWithRetry (failures ++ o :: rest) url (Some (Z.of_nat (length failures)))
    = (Resolved (GaveUp error), effs)
    /\ attempts effs = Datatypes.S (length failures)
    /\ slept effs = 1000 * (Z.of_nat (length failures) + 1).
Proof.
  intros Hfail Ho.
  destruct (fetchWithRetry_failures failures (o :: rest) url
              (Z.of_nat (length failures)) Hfail) as (effs & Hrun & Hatt & Hslept);
    [right; lia|].
  rewrite Z.sub_diag in Hrun. cbn [fetchWithRetry] in Hrun.
  rewrite Ho in Hrun. cbn [from_option id] in Hrun.
  rewrite decide_False in Hrun by (intros Hne; by apply Hne).
  cbn [fst snd] in Hrun. eexists. split; [exact Hrun|].
  rewrite attempts_app, slept_app, Hatt, Hslept. split; [simpl; lia | simpl; lia].
Qed.

(** X19.  [fetchWithRetry] resolves with the JSON of the first attempt
    that succeeds, provided the count allows the failed attempts before
    it; it has then made one attempt more than failed, with a second of
    sleep before each, and it looks at no later response. *)
Theorem fetchWithRetry_first_success failures o data rest url n :
  Forall fails failures ->
  try_fetch o = inr data ->
  n < 0 \/ Z.of_nat (length failures) <= n ->
  exists effs,
    fetchWithRetry (failures ++ o :: rest) url (Some n) = (Resolved (Data data), effs)
    /\ attempts effs = Datatypes.S (length failures)
    /\ slept effs = 1000 * (Z.of_nat (length failures) + 1).
Proof.
  intros Hfail Ho Hn.
  destruct (fetchWithRetry_failures failures (o :: rest) url n Hfail Hn)
    as (effs & Hrun & Hatt & Hslept).
  cbn [fetchWithRetry] in Hrun. rewrite Ho in Hrun. cbn [fst snd] in Hrun.
  eexists. split; [exact Hrun|].
  rewrite attempts_app, slept_app, Hatt, Hslept. split; [simpl; lia | simpl; lia].
Qed.

(** X20.  With a negative retry count the test [retryCount != 0] never
    stops the retries: however many attempts fail, [fetchWithRetry] has
    neither resolved nor rejected and is making the next attempt. *)
Theorem fetchWithRetry_negative_count_never_gives_up failures url n :
  n < 0 ->
  Forall fails failures ->
  fst (fetchWithRetry failures url (Some n)) = Pending
  /\ attempts (snd (fetchWithRetry failures url (Some n)))
     = Datatypes.S (length failures).
Proof.
  intros Hn Hfail.
  destruct (fetchWithRetry_failures failures [] url n Hfail (or_introl Hn))
    as (effs & Hrun & Hatt & _).
  rewrite app_nil_r in Hrun. rewrite Hrun. cbn [fetchWithRetry fst snd].
  split; [reflexivity|]. rewrite attempts_app, Hatt. simpl. lia.
Qed.

Lemma fetchWithRetry_attempts_bound script url n :
  0 <= n ->
  Z.of_nat (attempts (snd (fetchWithRetry script url (Some n)))) <= n + 1.
Proof.
  revert n. induction script as [|o rest IH]; intros n Hn.
  - simpl. lia.
  - cbn [fetchWithRetry from_option id]. destruct (try_fetch o) as [error|data].
    + destruct (decide (n <> 0)) as [Hne|Heq].
      * specialize (IH (n - 1) ltac:(lia)).
        destruct (fetchWithRetry rest url (Some (n - 1))) as [p effs'].
        cbn [snd] in *. rewrite attempts_app. simpl attempts at 1. lia.
      * simpl. lia.
    + simpl. lia.
Qed.

Lemma fetchWithRetry_never_rejects script url (count : option Z) error :
  fst (fetchWithRetry script url count) <> Rejected error.
Proof.
  revert count. induction script as [|o rest IH]; intros count.
  - discriminate.
  - cbn [fetchWithRetry]. destruct (try_fetch o) as [e|data]; [|discriminate].
    destruct (decide (default 5 count <> 0)); [|discriminate].
    specialize (IH (Some (default 5 count - 1))).
    by destruct (fetchWithRetry rest url (Some (default 5 count - 1))).
Qed.

End FetchFacts.

Lemma fetchWithRetry_gives_up_witness :
  exists effs,
    frontend.fetchWithRetry
      [fixtures.unreachable_fetch; fixtures.responds 500 []; fixtures.responds 404 [];
       fixtures.responds 200 ["order"]]
      "/orders" (Some 2)
    = (js.Resolved (frontend.GaveUp (js.new_Error "HTTP Error: 404")), effs)
    /\ frontend.attempts effs = 3%nat
    /\ frontend.slept effs = 3000.
Proof.
  apply (fetchWithRetry_gives_up
           [fixtures.unreachable_fetch; fixtures.responds 500 []]
           (fixtures.responds 404 []) (js.new_Error "HTTP Error: 404")
           [fixtures.responds 200 ["order"]] "/orders").
  - repeat constructor; eexists; reflexivity.
  - reflexivity.
Defined.

Lemma fetchWithRetry_first_success_witness :
  exists effs,
    frontend.fetchWithRetry
      [fixtures.unreachable_fetch; fixtures.responds 500 [];
       fixtures.responds 200 ["order"]; fixtures.unreachable_fetch]
      "/orders" (Some 5)
    = (js.Resolved (frontend.Data ["order"]), effs)
    /\ frontend.attempts effs = 3%nat
    /\ frontend.slept effs = 3000.
Proof.
  apply (fetchWithRetry_first_success
           [fixtures.unreachable_fetch; fixtures.responds 500 []]
           (fixtures.responds 200 ["order"]) ["order"]
           [fixtures.unreachable_fetch] "/orders" 5).
  - repeat constructor; eexists; reflexivity.
  - reflexivity.
  - right. simpl. lia.
Defined.

Lemma fetchWithRetry_negative_count_never_gives_up_witness :
  fst (frontend.fetchWithRetry
         [fixtures.unreachable_fetch; fixtures.unreachable_fetch;
          fixtures.unreachable_fetch]
         "/orders" (Some (-1)))
  = js.Pending
  /\ frontend.attempts
       (snd (frontend.fetchWithRetry
               [fixtures.unreachable_fetch; fixtures.unreachable_fetch;
                fixtures.unreachable_fetch]
               "/orders" (Some (-1))))
     = 4%nat.
Proof.
  apply (fetchWithRetry_negative_count_never_gives_up
           [fixtures.unreachable_fetch; fixtures.unreachable_fetch;
            fixtures.unreachable_fetch] "/orders" (-1)).
  - lia.
  - repeat constructor; eexists; reflexivity.
Defined.

Section OrderFacts.
Import frontend js.
Context {J : Type} {schemas : Schemas J}.
Implicit Types (script failures rest : list (FetchOutcome J))
  (INTERNAL_API_BASE_URL : option string) (transactionId : string).

Lemma attempts_log effs (error : Thrown) (msg : string) :
  attempts (effs ++ [LogError error msg]) = attempts effs.
Proof. rewrite attempts_app. simpl. lia. Qed.

(** X21.  [getOrderByTransactionID] makes at most six requests, and the
    only error it ever rejects with is [Failed to fetch user orders]:
    whatever failed underneath is logged and not passed on.  An order it
    resolves with is one the order schema accepted. *)
Theorem getOrderByTransactionID_masks_errors INTERNAL_API_BASE_URL script
    transactionId :
  (forall error,
     fst (getOrderByTransactionID INTERNAL_API_BASE_URL script transactionId)
     = Rejected error ->
     error = new_Error "Failed to fetch user orders")
  /\ (attempts
        (snd (getOrderByTransactionID INTERNAL_API_BASE_URL script transactionId))
      <= 6)%nat
  /\ (forall order,
     fst (getOrderByTransactionID INTERNAL_API_BASE_URL script transactionId)
     = Resolved order ->
     exists fetched, OrderSchema_parse fetched = inr order).
Proof.
  unfold getOrderByTransactionID.
  set (apiUrl := env_text INTERNAL_API_BASE_URL +:+ _ +:+ transactionId).
  pose proof (fetchWithRetry_attempts_bound script apiUrl 5 ltac:(lia)) as Hbound.
  destruct (fetchWithRetry script apiUrl (Some 5)) as [[fetched|error|] effs];
    cbn [snd] in Hbound.
  - destruct (OrderSchema_parse fetched) as [perr|order] eqn:Hp; cbn [fst snd].
    + split; [by intros ? [= <-]|]. rewrite attempts_log.
      split; [lia | discriminate].
    + split; [discriminate|]. split; [lia|]. intros ? [= <-]. eauto.
  - cbn [fst snd]. split; [by intros ? [= <-]|]. rewrite attempts_log.
    split; [lia | discriminate].
  - cbn [fst snd]. split; [discriminate|]. split; [lia | discriminate].
Qed.

(** X22.  When all six requests fail, what [fetchWithRetry] returns is
    the last error as a value, and [getOrderByTransactionID] hands this
    error to [OrderSchema.parse]: the outcome is whatever the schema makes
    of it, and when the schema throws, it is the schema's complaint that is
    logged with [failed to fetch order]. *)
Theorem getOrderByTransactionID_parses_the_error INTERNAL_API_BASE_URL failures
    o error rest transactionId :
  Forall fails failures ->
  length failures = 5%nat ->
  try_fetch o = inl error ->
  exists effs,
    attempts effs = 6%nat
    /\ getOrderByTransactionID INTERNAL_API_BASE_URL (failures ++ o :: rest)
         transactionId
       = match OrderSchema_parse (GaveUp error) with
         | inr order => (Resolved order, effs)
         | inl complaint =>
             (Rejected (new_Error "Failed to fetch user orders"),
              effs ++ [LogError complaint "failed to fetch order"])
         end.
Proof.
  intros Hfail Hlen Ho. unfold getOrderByTransactionID.
  set (apiUrl := env_text INTERNAL_API_BASE_URL +:+ _ +:+ transactionId).
  destruct (fetchWithRetry_failures failures (o :: rest) apiUrl 5 Hfail)
    as (effs & Hrun & Hatt & _); [right; lia|].
  rewrite Hlen in Hrun. change (5 - Z.of_nat 5) with 0 in Hrun.
  cbn [fetchWithRetry from_option id] in Hrun. rewrite Ho in Hrun.
  rewrite decide_False in Hrun by (intros Hne; by apply Hne).
  cbn [fst snd] in Hrun. rewrite Hrun.
  eexists. split; [|reflexivity].
  rewrite attempts_app, Hatt, Hlen. reflexivity.
Qed.

(** X23.  [fetchItems] on a response with a status from 200 to 299 whose
    JSON fits the schema returns as many items as the schema gave, in the
    same order, each with the base URL put before its image path, an unset
    base URL reading [undefined], and with its other fields as they were.
    On any other status it throws [Failed to fetch catalog items data]
    without reading the body. *)
Theorem fetchItems_prefixes_images INTERNAL_API_BASE_URL (res : Response J)
    (apiUrl : string) :
  (ok res = false ->
     fetchItems INTERNAL_API_BASE_URL (Responds res) apiUrl
     = (inl (new_Error "Failed to fetch catalog items data"), [Fetch apiUrl]))
  /\ (forall data items,
     ok res = true -> json res = inr data ->
     FoodItemsScheme_parse data = inr items ->
     exists updatedItems,
       fetchItems INTERNAL_API_BASE_URL (Responds res) apiUrl
       = (inr updatedItems, [Fetch apiUrl])
       /\ length updatedItems = length items
       /\ (forall i item, items !! i = Some item ->
           updatedItems !! i
           = Some {| image := default "undefined" INTERNAL_API_BASE_URL +:+ image item;
                     other := other item |})).
Proof.
  split.
  - intros Hok. unfold fetchItems. by rewrite Hok.
  - intros data items Hok Hjson Hparse. unfold fetchItems.
    rewrite Hok, Hjson, Hparse. simpl. eexists. split; [reflexivity|].
    split; [apply length_fmap|].
    intros i item Hi. by rewrite list_lookup_fmap, Hi.
Qed.

End OrderFacts.

Lemma getOrderByTransactionID_parses_the_error_witness :
  exists effs,
    frontend.attempts effs = 6%nat
    /\ frontend.getOrderByTransactionID (schemas := fixtures.schemas)
         (Some "http://api")
         (replicate 5 fixtures.unreachable_fetch ++ [fixtures.responds 503 []])
         "t-1"
       = (js.Rejected (js.new_Error "Failed to fetch user orders"),
          effs ++ [frontend.LogError (js.new_Error "invalid order")
                     "failed to fetch order"]).
Proof.
  apply (getOrderByTransactionID_parses_the_error (schemas := fixtures.schemas)
           (Some "http://api") (replicate 5 fixtures.unreachable_fetch)
           (fixtures.responds 503 []) (js.new_Error "HTTP Error: 503") [] "t-1").
  - repeat constructor; eexists; reflexivity.
  - reflexivity.
  - reflexivity.
Defined.

Lemma fetchItems_prefixes_images_witness :
  (exists updatedItems,
     frontend.fetchItems (schemas := fixtures.schemas) None
       (fixtures.responds 200 ["/img/a.png"; "/img/b.png"])
       "undefined/catalog/items/all"
     = (inr updatedItems, [frontend.Fetch "undefined/catalog/items/all"])
     /\ length updatedItems = 2%nat
     /\ updatedItems !! 1%nat
        = Some {| frontend.image := "undefined/img/b.png"; frontend.other := tt |})
  /\ frontend.fetchItems (schemas := fixtures.schemas) (Some "http://api")
       (fixtures.responds 404 ["/img/a.png"]) "http://api/catalog/items/all"
     = (inl (js.new_Error "Failed to fetch catalog items data"),
        [frontend.Fetch "http://api/catalog/items/all"]).
Proof.
  split.
  - destruct (fetchItems_prefixes_images (schemas := fixtures.schemas) None
                {| frontend.status := 200;
                   frontend.json := inr ["/img/a.png"; "/img/b.png"] |}
                "undefined/catalog/items/all") as [_ Hok].
    destruct (Hok ["/img/a.png"; "/img/b.png"]
                [ {| frontend.image := "/img/a.png"; frontend.other := tt |};
                  {| frontend.image := "/img/b.png"; frontend.other := tt |} ]
                eq_refl eq_refl eq_refl) as (updated & Hrun & Hlen & Himg).
    exists updated. split; [exact Hrun|]. split; [exact Hlen|].
    exact (Himg 1%nat _ eq_refl).
  - destruct (fetchItems_prefixes_images (schemas := fixtures.schemas)
                (Some "http://api")
                {| frontend.status := 404; frontend.json := inr ["/img/a.png"] |}
                "http://api/catalog/items/all") as [Hbad _].
    exact (Hbad eq_refl).
Defined.
